(** * InstaFit request gate: rate limiter and bot protector

    A shallow embedding of [rate_limiter.py] (with the constants of
    [config.py]) and the properties of its sliding-window rate limiter,
    its bot classifier and the decorator that chains both.

    Modelling conventions

    - [time.time()] is an oracle: [clock n] is the value of the n-th read
      of the process, and the world counts the reads made so far.  Every
      function of the source that reads the clock does so here, in the
      same order, so that the clock may advance in the middle of a call.
    - Timestamps and window lengths are integers of one common unit (the
      source has floating-point seconds; rounding is not modelled).
    - [RateLimiter.storage] is a [defaultdict]: subscripting a missing key
      inserts a fresh record of three empty deques.  The store is a
      [gmap] and [storage_getitem] writes that insertion out.
    - Header values are Latin-1 text, one [ascii] per code point, as a
      WSGI server hands them over.
    - Calls to [logger] have no effect on any result and are left out. *)

From Stdlib Require Import ZArith String Ascii List Lia Bool Sorted.
From stdpp Require Import gmap strings list fin_maps.

Local Open Scope Z_scope.


(** ** State and the clock *)

(** The three keys of a client's record. *)
Inductive window_type := minute | hour | day.

(** The value the [defaultdict] stores per client: one deque of
    timestamps per window, oldest first. *)
Record ClientRecord := mkRecord {
  minute_deque : list Z;
  hour_deque : list Z;
  day_deque : list Z
}.

Definition empty_record : ClientRecord := mkRecord [] [] [].

(** [record[window_type]] *)
Definition deque_of (wt : window_type) (r : ClientRecord) : list Z :=
  match wt with
  | minute => minute_deque r
  | hour => hour_deque r
  | day => day_deque r
  end.

(** In-place update of [record[window_type]]. *)
Definition set_deque (wt : window_type) (q : list Z) (r : ClientRecord)
  : ClientRecord :=
  match wt with
  | minute => mkRecord q (hour_deque r) (day_deque r)
  | hour => mkRecord (minute_deque r) q (day_deque r)
  | day => mkRecord (minute_deque r) (hour_deque r) q
  end.

Record World := mkWorld {
  storage : gmap string ClientRecord;
  ticks : nat
}.

Definition fresh_world : World := mkWorld ∅ 0.

(** Computations that read and update the world. *)
Definition M (A : Type) : Type := World -> A * World.

#[global] Instance M_ret : MRet M := fun A (a : A) w => (a, w).
#[global] Instance M_bind : MBind M := fun A B (f : A -> M B) (m : M A) w =>
  let (a, w') := m w in f a w'.

Definition result {A} (m : M A) (w : World) : A := fst (m w).
Definition after {A} (m : M A) (w : World) : World := snd (m w).

(** [RATE_LIMIT_CONFIG], the keys the limiter reads. *)
Record RateLimitConfig := mkRateLimitConfig {
  requests_per_minute : Z;
  requests_per_hour : Z;
  requests_per_day : Z;
  minute_window : Z;
  hour_window : Z;
  day_window : Z;
  enable_headers : bool
}.

(** The values of [config.py]. *)
Definition RATE_LIMIT_CONFIG : RateLimitConfig :=
  mkRateLimitConfig 3 15 30 60 3600 86400 true.

(** [config[f"requests_per_{window_type}"]] *)
Definition requests_per (cfg : RateLimitConfig) (wt : window_type) : Z :=
  match wt with
  | minute => requests_per_minute cfg
  | hour => requests_per_hour cfg
  | day => requests_per_day cfg
  end.

(** [config[f"{window_type}_window"]] *)
Definition window_seconds_of (cfg : RateLimitConfig) (wt : window_type) : Z :=
  match wt with
  | minute => minute_window cfg
  | hour => hour_window cfg
  | day => day_window cfg
  end.

(** [len(deque)] *)
Definition len (q : list Z) : Z := Z.of_nat (length q).

(** The [while] loop of [_cleanup_old_requests] on one deque: pop the
    head as long as there is one and it is older than the window. *)
Fixpoint popleft_while_old (current_time window_seconds : Z) (q : list Z)
  : list Z :=
  match q with
  | [] => []
  | t :: q' =>
      if current_time - t >? window_seconds
      then popleft_while_old current_time window_seconds q'
      else q
  end.

(** The outcome of [is_rate_limited]: the tuple
    [(False, None, None, None)] or [(True, window_type, limit, current)]. *)
Inductive RateLimited :=
| NotLimited
| Limited (wt : window_type) (limit current_requests : Z).

(** The dictionary [get_remaining_requests] returns. *)
Record Remaining := mkRemaining {
  remaining_minute : Z;
  remaining_hour : Z;
  remaining_day : Z
}.

(** ** RateLimiter *)

Section RateLimiter.

Variable clock : nat -> Z.
Variable config : RateLimitConfig.

(** [time.time()] *)
Definition time_time : M Z := fun w =>
  (clock (ticks w), mkWorld (storage w) (S (ticks w))).

(** [self.storage[client_ip]] on the [defaultdict]. *)
Definition storage_getitem (client_ip : string) : M ClientRecord := fun w =>
  match storage w !! client_ip with
  | Some r => (r, w)
  | None =>
      (empty_record, mkWorld (<[client_ip := empty_record]> (storage w)) (ticks w))
  end.

(** A mutation of the deque [self.storage[client_ip][window_type]]. *)
Definition storage_modify (client_ip : string) (wt : window_type)
    (f : list Z -> list Z) : M unit :=
  fun w =>
    let (r, w') := storage_getitem client_ip w in
    (tt, mkWorld (<[client_ip := set_deque wt (f (deque_of wt r)) r]> (storage w'))
                 (ticks w')).

Definition _cleanup_old_requests (client_ip : string) (wt : window_type)
  : M unit :=
  current_time ← time_time;
  let window_seconds := window_seconds_of config wt in
  storage_modify client_ip wt (popleft_while_old current_time window_seconds).

(** The [for] loop of [is_rate_limited] over the windows still to check. *)
Fixpoint is_rate_limited_loop (client_ip : string) (wts : list window_type)
  : M RateLimited :=
  match wts with
  | [] => mret NotLimited
  | wt :: wts' =>
      _cleanup_old_requests client_ip wt;;
      let limit := requests_per config wt in
      r ← storage_getitem client_ip;
      let current_requests := len (deque_of wt r) in
      if current_requests >=? limit
      then mret (Limited wt limit current_requests)
      else is_rate_limited_loop client_ip wts'
  end.

Definition is_rate_limited (client_ip : string) : M RateLimited :=
  current_time ← time_time;
  is_rate_limited_loop client_ip [minute; hour; day].

(** The [for] loop of [record_request]. *)
Fixpoint record_request_loop (current_time : Z) (client_ip : string)
    (wts : list window_type) : M unit :=
  match wts with
  | [] => mret tt
  | wt :: wts' =>
      storage_modify client_ip wt (fun q => q ++ [current_time]);;
      record_request_loop current_time client_ip wts'
  end.

Definition record_request (client_ip : string) : M unit :=
  current_time ← time_time;
  record_request_loop current_time client_ip [minute; hour; day].

Definition get_remaining_requests (client_ip : string) : M Remaining :=
  _cleanup_old_requests client_ip minute;;
  _cleanup_old_requests client_ip hour;;
  _cleanup_old_requests client_ip day;;
  rm ← storage_getitem client_ip;
  rh ← storage_getitem client_ip;
  rd ← storage_getitem client_ip;
  mret (mkRemaining
          (requests_per_minute config - len (minute_deque rm))
          (requests_per_hour config - len (hour_deque rh))
          (requests_per_day config - len (day_deque rd))).

Definition get_rate_limit_info (client_ip : string) : M Remaining :=
  get_remaining_requests client_ip.

Definition reset_rate_limit (client_ip : string) : M bool := fun w =>
  match storage w !! client_ip with
  | Some _ => (true, mkWorld (delete client_ip (storage w)) (ticks w))
  | None => (false, w)
  end.

End RateLimiter.

(** ** Python string operations, on Latin-1 text *)

(** [str.isspace] of one character. *)
Definition py_isspace (c : ascii) : bool :=
  let n := nat_of_ascii c in
  ((9 <=? n) && (n <=? 13) || (28 <=? n) && (n <=? 32)
   || (n =? 133) || (n =? 160))%nat.

(** [str.lower] of one character. *)
Definition py_lower_char (c : ascii) : ascii :=
  let n := nat_of_ascii c in
  if ((65 <=? n) && (n <=? 90) || (192 <=? n) && (n <=? 214)
      || (216 <=? n) && (n <=? 222))%nat
  then ascii_of_nat (n + 32)
  else c.

(** [s.lower()] *)
Fixpoint py_lower (s : string) : string :=
  match s with
  | EmptyString => EmptyString
  | String c s' => String (py_lower_char c) (py_lower s')
  end.

(** [s.lstrip()] *)
Fixpoint py_lstrip (s : string) : string :=
  match s with
  | EmptyString => EmptyString
  | String c s' => if py_isspace c then py_lstrip s' else s
  end.

(** [s.rstrip()] *)
Fixpoint py_rstrip (s : string) : string :=
  match s with
  | EmptyString => EmptyString
  | String c s' =>
      match py_rstrip s' with
      | EmptyString => if py_isspace c then EmptyString else String c EmptyString
      | r => String c r
      end
  end.

(** [s.strip()] *)
Definition py_strip (s : string) : string := py_rstrip (py_lstrip s).

(** [s.split(',')[0]] *)
Fixpoint py_split_comma_first (s : string) : string :=
  match s with
  | EmptyString => EmptyString
  | String c s' =>
      if Ascii.eqb c "," then EmptyString else String c (py_split_comma_first s')
  end.

(** [sub in s] *)
Fixpoint py_in (sub s : string) : bool :=
  String.prefix sub s
  || match s with
     | EmptyString => false
     | String _ s' => py_in sub s'
     end.

(** ** The request and the bot protector *)

(** What the gate reads of Flask's [request]: three headers, each absent
    or present, and the peer address. *)
Record Request := mkRequest {
  header_x_forwarded_for : option string;
  header_x_real_ip : option string;
  header_user_agent : option string;
  remote_addr : string
}.

(** [BOT_PROTECTION_CONFIG] *)
Record BotProtectionConfig := mkBotProtectionConfig {
  block_bot_user_agents : bool;
  require_user_agent : bool;
  block_known_bot_ips : bool;
  bot_user_agent_patterns : list string;
  known_bot_ips : list string;
  allowed_user_agents : list string
}.

(** The values of [config.py]. *)
Definition BOT_PROTECTION_CONFIG : BotProtectionConfig :=
  mkBotProtectionConfig true true false
    [ "bot"; "crawler"; "spider"; "scraper"; "scraper"; "crawler";
      "python"; "curl"; "wget"; "http"; "java"; "perl"; "ruby";
      "go-http-client"; "okhttp"; "apache-httpclient"; "requests";
      "urllib"; "mechanize"; "scrapy"; "selenium"; "phantomjs";
      "headless"; "chrome-lighthouse"; "googlebot"; "bingbot";
      "yandex"; "baiduspider"; "facebookexternalhit"; "twitterbot";
      "linkedinbot"; "whatsapp"; "telegrambot"; "slackbot";
      "discordbot"; "redditbot"; "tumblr"; "instagram"; "pinterest" ]
    []
    [ "instafit-extension"; "instafit-mobile" ].

(** [RateLimiter._get_client_ip]; a header that is absent or empty is
    falsy. *)
Definition _get_client_ip (request : Request) : string :=
  match header_x_forwarded_for request with
  | Some (String c s) => py_strip (py_split_comma_first (String c s))
  | _ =>
      match header_x_real_ip request with
      | Some (String c s) => String c s
      | _ => remote_addr request
      end
  end.

Section BotProtector.

Variable config : BotProtectionConfig.
Variable request : Request.

(** [request.headers.get('User-Agent', '').lower()] *)
Definition _get_user_agent : string :=
  py_lower (default EmptyString (header_user_agent request)).

Definition _is_bot_user_agent (user_agent : string) : bool :=
  if negb (block_bot_user_agents config) then false
  else if existsb (fun allowed_agent => py_in (py_lower allowed_agent) user_agent)
                  (allowed_user_agents config)
  then false
  else if existsb (fun pattern => py_in (py_lower pattern) user_agent)
                  (bot_user_agent_patterns config)
  then true
  else false.

Definition _is_known_bot_ip (client_ip : string) : bool :=
  if negb (block_known_bot_ips config) then false
  else bool_decide (client_ip ∈ known_bot_ips config).

Definition _has_required_headers : bool :=
  if negb (require_user_agent config) then true
  else
    match header_user_agent request with
    | Some user_agent => negb (String.eqb (py_strip user_agent) EmptyString)
    | None => false
    end.

Definition is_bot (client_ip : string) : bool * option string :=
  let user_agent := _get_user_agent in
  if negb _has_required_headers
  then (true, Some "Missing required headers")
  else if _is_bot_user_agent user_agent
  then (true, Some (String.app "Bot user agent detected: " user_agent))
  else if _is_known_bot_ip client_ip
  then (true, Some "Known bot IP")
  else (false, None).

End BotProtector.

(** ** The decorator [rate_limit_and_protect] *)

(** Headers of the 429 response. *)
Record RateLimitHeaders := mkRateLimitHeaders {
  x_ratelimit_limit : Z;
  x_ratelimit_remaining : Z;
  x_ratelimit_reset : Z;
  retry_after_header : Z
}.

(** Headers added to the handler's response. *)
Record QuotaHeaders := mkQuotaHeaders {
  x_ratelimit_limit_minute : Z;
  x_ratelimit_limit_hour : Z;
  x_ratelimit_limit_day : Z;
  x_ratelimit_remaining_of : Remaining
}.

(** What the decorated function returns: the 403 body
    [{"error", "reason", "details"}], the 429 body
    [{"error", "limit_type", "limit", "current", "retry_after"}] with its
    headers, or the handler's own response with the quota headers. *)
Inductive Response (R : Type) :=
| Response403 (error reason : string) (details : option string)
| Response429 (error : string) (limit_type : window_type)
    (limit current retry_after : Z) (headers : option RateLimitHeaders)
| ResponseOf (response : R) (headers : option QuotaHeaders).

Arguments Response403 {R} error reason details.
Arguments Response429 {R} error limit_type limit current retry_after headers.
Arguments ResponseOf {R} response headers.

Section Gate.

Variable clock : nat -> Z.
Variable rate_config : RateLimitConfig.
Variable bot_config : BotProtectionConfig.

(** The handler's response type, and [hasattr(response, 'headers')]. *)
Variable R : Type.
Variable has_headers : R -> bool.

(** The wrapped handler [f]; it sees [g.client_ip] and
    [g.rate_limit_info]. *)
Variable f : string -> Remaining -> M R.

Definition rate_limit_and_protect (request : Request) : M (Response R) :=
  let client_ip := _get_client_ip request in
  let '(is_bot_, bot_reason) := is_bot bot_config request client_ip in
  if is_bot_
  then mret (Response403 "Access denied" "Bot detection" bot_reason)
  else
    limited ← is_rate_limited clock rate_config client_ip;
    match limited with
    | Limited wt limit current =>
        let retry_after := window_seconds_of rate_config wt in
        if enable_headers rate_config
        then
          now ← time_time clock;
          mret (Response429 "Rate limit exceeded" wt limit current retry_after
                  (Some (mkRateLimitHeaders limit 0 (now + retry_after) retry_after)))
        else
          mret (Response429 "Rate limit exceeded" wt limit current retry_after None)
    | NotLimited =>
        record_request clock client_ip;;
        rate_limit_info ← get_remaining_requests clock rate_config client_ip;
        if enable_headers rate_config
        then
          remaining ← get_remaining_requests clock rate_config client_ip;
          response ← f client_ip rate_limit_info;
          mret (ResponseOf response
                  (if has_headers response
                   then Some (mkQuotaHeaders (requests_per_minute rate_config)
                                (requests_per_hour rate_config)
                                (requests_per_day rate_config) remaining)
                   else None))
        else
          response ← f client_ip rate_limit_info;
          mret (ResponseOf response None)
    end.

End Gate.

(** ** Sequences of calls *)

(** The entry points of the limiter, as a caller may invoke them.
    [AdmitAndRecord] is what the decorator does: [is_rate_limited], then
    [record_request] only when the answer is [NotLimited]. *)
Inductive Call :=
| CleanupOldRequests (client_ip : string) (wt : window_type)
| IsRateLimited (client_ip : string)
| RecordRequest (client_ip : string)
| GetRemainingRequests (client_ip : string)
| ResetRateLimit (client_ip : string)
| AdmitAndRecord (client_ip : string).

Section Calls.

Variable clock : nat -> Z.
Variable config : RateLimitConfig.

Definition admit_and_record (client_ip : string) : M RateLimited :=
  limited ← is_rate_limited clock config client_ip;
  match limited with
  | Limited _ _ _ => mret limited
  | NotLimited => record_request clock client_ip;; mret limited
  end.

Definition run_call (c : Call) : M unit :=
  match c with
  | CleanupOldRequests client_ip wt => _cleanup_old_requests clock config client_ip wt
  | IsRateLimited client_ip => is_rate_limited clock config client_ip;; mret tt
  | RecordRequest client_ip => record_request clock client_ip
  | GetRemainingRequests client_ip =>
      get_remaining_requests clock config client_ip;; mret tt
  | ResetRateLimit client_ip => reset_rate_limit client_ip;; mret tt
  | AdmitAndRecord client_ip => admit_and_record client_ip;; mret tt
  end.

Fixpoint run_calls (cs : list Call) : M unit :=
  match cs with
  | [] => mret tt
  | c :: cs' => run_call c;; run_calls cs'
  end.

(** [n] times [admit_and_record], results in order. *)
Fixpoint admit_and_record_times (n : nat) (client_ip : string)
  : M (list RateLimited) :=
  match n with
  | O => mret []
  | S n' =>
      r ← admit_and_record client_ip;
      rs ← admit_and_record_times n' client_ip;
      mret (r :: rs)
  end.

End Calls.

(** A call that records only after an admission: every call except a
    bare [record_request]. *)
Definition gated (c : Call) : bool :=
  match c with
  | RecordRequest _ => false
  | _ => true
  end.

(** ** Views of the store used in the statements *)

(** The record subscripting would see: the stored one, or the default. *)
Definition record_of (w : World) (client_ip : string) : ClientRecord :=
  default empty_record (storage w !! client_ip).

(** The world with [client_ip]'s record replaced and [n] clock reads made. *)
Definition put (client_ip : string) (r : ClientRecord) (n : nat) (w : World)
  : World :=
  mkWorld (<[client_ip := r]> (storage w)) n.

(** A record with the three deques pruned at three clock values. *)
Definition pruned (cfg : RateLimitConfig) (tm th td : Z) (r : ClientRecord)
  : ClientRecord :=
  mkRecord (popleft_while_old tm (minute_window cfg) (minute_deque r))
           (popleft_while_old th (hour_window cfg) (hour_deque r))
           (popleft_while_old td (day_window cfg) (day_deque r)).

(** The full quota. *)
Definition ceilings (cfg : RateLimitConfig) : Remaining :=
  mkRemaining (requests_per_minute cfg) (requests_per_hour cfg)
              (requests_per_day cfg).

(** ** Invariants of the store *)

(** No window of the record holds more timestamps than its ceiling. *)
Definition record_within (cfg : RateLimitConfig) (r : ClientRecord) : Prop :=
  forall wt, len (deque_of wt r) <= requests_per cfg wt.

Definition within_quota (cfg : RateLimitConfig) (w : World) : Prop :=
  forall id r, storage w !! id = Some r -> record_within cfg r.

(** Every deque of the record is in non-decreasing order and holds no
    timestamp later than [now]. *)
Definition record_ordered (now : Z) (r : ClientRecord) : Prop :=
  forall wt, Sorted Z.le (deque_of wt r) /\ Forall (fun t => t <= now) (deque_of wt r).

(** Every record is ordered and not ahead of the next clock read. *)
Definition well_ordered (clock : nat -> Z) (w : World) : Prop :=
  forall id r, storage w !! id = Some r -> record_ordered (clock (ticks w)) r.

(** The clock never goes back. *)
Definition monotone (clock : nat -> Z) : Prop :=
  forall i j, (i <= j)%nat -> clock i <= clock j.

(** The footprint of one call: the world is left as it was, or one record
    is deleted, or one client's deques are each trimmed to a suffix, or
    each trimmed to a suffix and extended by one clock value read during
    the call.  [after_admission] tells that the suffixes were found below
    their ceilings before the timestamp was appended. *)
Inductive touched (clock : nat -> Z) (cfg : RateLimitConfig)
    (after_admission : bool) (w : World) : World -> Prop :=
| touched_nothing : touched clock cfg after_admission w w
| touched_delete id :
    touched clock cfg after_admission w (mkWorld (delete id (storage w)) (ticks w))
| touched_prune id r' k :
    (forall wt, deque_of wt r' `suffix_of` deque_of wt (record_of w id)) ->
    touched clock cfg after_admission w (put id r' (ticks w + k) w)
| touched_append id r' j k :
    (j < k)%nat ->
    (forall wt, exists s,
        s `suffix_of` deque_of wt (record_of w id)
        /\ deque_of wt r' = s ++ [clock (ticks w + j)%nat]
        /\ (after_admission = true -> len s < requests_per cfg wt)) ->
    touched clock cfg after_admission w (put id r' (ticks w + k) w).

(** A burst of [k] recorded requests: all three deques of the client hold
    the same [k] timestamps, and none of them is older than the minute
    window at any clock read from the [t0]-th on. *)
Definition burst (clock : nat -> Z) (cfg : RateLimitConfig) (id : string)
    (t0 k : nat) (w : World) : Prop :=
  exists q,
    record_of w id = mkRecord q q q
    /\ length q = k
    /\ (t0 <= ticks w)%nat
    /\ Forall (fun t => forall j, (t0 <= j)%nat -> clock j - t <= minute_window cfg) q.

(** ** Calls, their client and the requests they admit *)

(** The client a call is about. *)
Definition client_of (c : Call) : string :=
  match c with
  | CleanupOldRequests client_ip _ => client_ip
  | IsRateLimited client_ip => client_ip
  | RecordRequest client_ip => client_ip
  | GetRemainingRequests client_ip => client_ip
  | ResetRateLimit client_ip => client_ip
  | AdmitAndRecord client_ip => client_ip
  end.

(** A call that neither records a request of [id] without admission nor
    resets [id]. *)
Definition respects (id : string) (c : Call) : bool :=
  match c with
  | RecordRequest client_ip => negb (String.eqb client_ip id)
  | ResetRateLimit client_ip => negb (String.eqb client_ip id)
  | _ => true
  end.

(** The timestamp a call records for [id] after admitting it: the clock
    value [record_request] reads once [is_rate_limited] has answered
    [NotLimited]; no timestamp for any other call or answer. *)
Definition admitted_by (clock : nat -> Z) (cfg : RateLimitConfig) (id : string)
    (c : Call) (w : World) : list Z :=
  match c with
  | AdmitAndRecord client_ip =>
      if String.eqb client_ip id
      then match result (is_rate_limited clock cfg client_ip) w with
           | NotLimited =>
               [clock (ticks (after (is_rate_limited clock cfg client_ip) w))]
           | Limited _ _ _ => []
           end
      else []
  | _ => []
  end.

(** The timestamps of the requests of [id] admitted along a sequence of
    calls, oldest first. *)
Fixpoint admitted_times (clock : nat -> Z) (cfg : RateLimitConfig) (id : string)
    (cs : list Call) (w : World) : list Z :=
  match cs with
  | [] => []
  | c :: cs' =>
      admitted_by clock cfg id c w
      ++ admitted_times clock cfg id cs' (after (run_call clock cfg c) w)
  end.

(** The log [H] of admitted timestamps of [id] agrees with the store: no
    logged timestamp is ahead of the clock; each deque is what is left of
    the log after dropping a prefix of timestamps that are older than the
    window; and every logged request had fewer than the ceiling logged
    predecessors within the window before it. *)
Definition log_consistent (clock : nat -> Z) (cfg : RateLimitConfig)
    (id : string) (w : World) (H : list Z) : Prop :=
  Forall (fun t => t <= clock (ticks w)) H
  /\ (forall wt, exists dropped,
         H = dropped ++ deque_of wt (record_of w id)
         /\ Forall (fun t => clock (ticks w) - t > window_seconds_of cfg wt) dropped)
  /\ (forall pre T post wt,
         H = pre ++ T :: post ->
         len (filter (fun t => T - t <= window_seconds_of cfg wt) pre)
         < requests_per cfg wt).

(** No figure of the quota is negative. *)
Definition nonnegative (r : Remaining) : Prop :=
  0 <= remaining_minute r /\ 0 <= remaining_hour r /\ 0 <= remaining_day r.

(** The quota with one request taken from every window. *)
Definition one_less (r : Remaining) : Remaining :=
  mkRemaining (remaining_minute r - 1) (remaining_hour r - 1) (remaining_day r - 1).

(** ** Endpoints of [app.py] that use the limiter *)

(** The body of [/rate-limit/status].  [API_CONFIG] has no
    ['rate_limit_config'] key, so the three [.get] chains of the source
    fall through to their defaults 3, 15 and 30. *)
Record StatusBody := mkStatusBody {
  status_client_ip : string;
  status_rate_limit_info : Remaining;
  status_per_minute : Z;
  status_per_hour : Z;
  status_per_day : Z
}.

(** The undecorated [rate_limit_status]; [g.client_ip] is the identity
    the decorator stored. *)
Definition rate_limit_status_handler (clock : nat -> Z) (config : RateLimitConfig)
    (client_ip : string) (_ : Remaining) : M StatusBody :=
  rate_limit_info ← get_rate_limit_info clock config client_ip;
  mret (mkStatusBody client_ip rate_limit_info 3 15 30).

(** [rate_limit_status] as routed: behind [rate_limit_and_protect]; the
    JSON response it returns has headers. *)
Definition rate_limit_status (clock : nat -> Z) (rate_config : RateLimitConfig)
    (bot_config : BotProtectionConfig) (request : Request)
  : M (Response StatusBody) :=
  rate_limit_and_protect clock rate_config bot_config StatusBody (fun _ => true)
    (rate_limit_status_handler clock rate_config) request.

(** The body and status code of [/rate-limit/reset/<ip_address>], which
    is routed without any decorator. *)
Definition admin_reset_rate_limit (ip_address : string) : M (bool * string * Z) :=
  ok ← reset_rate_limit ip_address;
  mret (if ok : bool
        then (true, String.app "Rate limit reset for IP: " ip_address, 200)
        else (false, String.app "No rate limit data found for IP: " ip_address, 404)).

(** ** Further string operations *)

(** Every character of the string is whitespace for [str.isspace]. *)
Fixpoint all_space (s : string) : bool :=
  match s with
  | EmptyString => true
  | String c s' => py_isspace c && all_space s'
  end.

(** [s.replace(old, "")] for a non-empty [old]: scanning from the left,
    each occurrence of [old] is skipped and the scan resumes after it;
    [skip] counts the characters of the current occurrence still to pass. *)
Fixpoint py_remove_from (old : string) (skip : nat) (s : string) : string :=
  match s with
  | EmptyString => EmptyString
  | String c s' =>
      match skip with
      | S k => py_remove_from old k s'
      | O =>
          if String.prefix old s
          then py_remove_from old (String.length old - 1) s'
          else String c (py_remove_from old O s')
      end
  end.

Definition py_remove (old s : string) : string := py_remove_from old 0 s.

(** ** [require_api_key] and the [/instafit] route of [app.py] *)

(** [API_KEYS], the dictionary literal
    [{os.getenv("API_KEY"): "default-user", "test-key": "test-user"}];
    [env_api_key] is what [os.getenv] returned, [None] when the variable
    is not set.  In a literal a later entry replaces an earlier one with
    the same key. *)
Definition API_KEYS (env_api_key : option string) : gmap (option string) string :=
  <[Some "test-key" := "test-user"]> (<[env_api_key := "default-user"]> ∅).

(** What a function decorated with [require_api_key] returns: one of the
    401 bodies [{"error": ...}] or the response of the function. *)
Inductive Authenticated (R : Type) :=
| Response401 (error : string)
| Passed (response : R).

Arguments Response401 {R} error.
Arguments Passed {R} response.

(** [require_api_key].  [authorization] is
    [request.headers.get('Authorization')] and the decorated function [f]
    sees [request.user].  [str.replace] does not raise on a string, so the
    [except] branch of the source is never taken. *)
Definition require_api_key (env_api_key : option string) (R : Type)
    (f : string -> M R) (authorization : option string) : M (Authenticated R) :=
  match authorization with
  | Some (String c s) =>
      let auth_header := String c s in
      let api_key := py_remove "Bearer " auth_header in
      match API_KEYS env_api_key !! Some api_key with
      | None => (mret (Response401 "Invalid API key") : M (Authenticated R))
      | Some user => response ← f user; mret (Passed response)
      end
  | _ => mret (Response401 "API key required")
  end.

(** The route [/instafit]: [require_api_key] around
    [rate_limit_and_protect] around [perform_try_on], which is given here
    what it reads of the request context: the user, the client identity
    and the quota. *)
Definition instafit_route (clock : nat -> Z) (rate_config : RateLimitConfig)
    (bot_config : BotProtectionConfig) (env_api_key : option string)
    (R : Type) (has_headers : R -> bool)
    (perform_try_on : string -> string -> Remaining -> M R)
    (request : Request) (authorization : option string)
  : M (Authenticated (Response R)) :=
  require_api_key env_api_key (Response R)
    (fun user =>
       rate_limit_and_protect clock rate_config bot_config R has_headers
         (perform_try_on user) request)
    authorization.

(** The answer [is_rate_limited] gives when the record it has pruned is
    [p]: the first window at its ceiling, or not limited. *)
Definition answer_for (cfg : RateLimitConfig) (p : ClientRecord) : RateLimited :=
  if len (minute_deque p) >=? requests_per_minute cfg
  then Limited minute (requests_per_minute cfg) (len (minute_deque p))
  else if len (hour_deque p) >=? requests_per_hour cfg
  then Limited hour (requests_per_hour cfg) (len (hour_deque p))
  else if len (day_deque p) >=? requests_per_day cfg
  then Limited day (requests_per_day cfg) (len (day_deque p))
  else NotLimited.

(** * Properties *)

(** ** Stepping the primitive operations *)

Lemma world_eta w : mkWorld (storage w) (ticks w) = w.
Proof. by destruct w. Qed.

Lemma set_deque_same wt r : set_deque wt (deque_of wt r) r = r.
Proof. by destruct wt, r. Qed.

Lemma deque_of_set_deque wt q r : deque_of wt (set_deque wt q r) = q.
Proof. by destruct wt. Qed.

Lemma deque_of_set_deque_ne wt wt' q r :
  wt ≠ wt' -> deque_of wt' (set_deque wt q r) = deque_of wt' r.
Proof. by destruct wt, wt'. Qed.

Lemma record_of_put id r n w : record_of (put id r n w) id = r.
Proof. unfold record_of, put; simpl. by rewrite lookup_insert_eq. Qed.

Lemma record_of_put_ne id id' r n w :
  id ≠ id' -> record_of (put id r n w) id' = record_of w id'.
Proof. intros. unfold record_of, put; simpl. by rewrite lookup_insert_ne. Qed.

Lemma put_put id r r' n n' w : put id r' n' (put id r n w) = put id r' n' w.
Proof. unfold put; simpl. by rewrite insert_insert_eq. Qed.

Lemma ticks_put id r n w : ticks (put id r n w) = n.
Proof. done. Qed.

Lemma storage_getitem_eq id w :
  storage_getitem id w = (record_of w id, put id (record_of w id) (ticks w) w).
Proof.
  unfold storage_getitem, record_of, put.
  destruct (storage w !! id) as [r|] eqn:E; simpl; [|done].
  rewrite insert_id by done. by rewrite world_eta.
Qed.

Lemma storage_modify_eq id wt f w :
  storage_modify id wt f w =
  (tt, put id (set_deque wt (f (deque_of wt (record_of w id))) (record_of w id))
           (ticks w) w).
Proof.
  unfold storage_modify. rewrite storage_getitem_eq.
  unfold put; simpl. by rewrite insert_insert_eq.
Qed.

Lemma cleanup_eq clock cfg id wt w :
  _cleanup_old_requests clock cfg id wt w =
  (tt, put id (set_deque wt
                 (popleft_while_old (clock (ticks w)) (window_seconds_of cfg wt)
                    (deque_of wt (record_of w id)))
                 (record_of w id))
           (S (ticks w)) w).
Proof.
  unfold _cleanup_old_requests, mbind, M_bind, time_time.
  rewrite storage_modify_eq. done.
Qed.

Lemma storage_modify_put id wt f r n w :
  storage_modify id wt f (put id r n w) =
  (tt, put id (set_deque wt (f (deque_of wt r)) r) n w).
Proof. by rewrite storage_modify_eq, record_of_put, put_put. Qed.

Lemma storage_getitem_put id r n w :
  storage_getitem id (put id r n w) = (r, put id r n w).
Proof. by rewrite storage_getitem_eq, record_of_put, put_put. Qed.

Lemma cleanup_put clock cfg id wt r n w :
  _cleanup_old_requests clock cfg id wt (put id r n w) =
  (tt, put id (set_deque wt
                 (popleft_while_old (clock n) (window_seconds_of cfg wt)
                    (deque_of wt r)) r)
           (S n) w).
Proof. by rewrite cleanup_eq, record_of_put, put_put. Qed.

(** Reading the clock does not disturb the record a subscript sees. *)
Lemma storage_modify_ticked id wt f n w :
  storage_modify id wt f (mkWorld (storage w) n) =
  (tt, put id (set_deque wt (f (deque_of wt (record_of w id))) (record_of w id)) n w).
Proof. by rewrite storage_modify_eq. Qed.

Lemma record_request_eq clock id w :
  record_request clock id w =
  (tt, put id (mkRecord (minute_deque (record_of w id) ++ [clock (ticks w)])
                        (hour_deque (record_of w id) ++ [clock (ticks w)])
                        (day_deque (record_of w id) ++ [clock (ticks w)]))
           (S (ticks w)) w).
Proof.
  unfold record_request, record_request_loop, mbind, M_bind, time_time, mret, M_ret.
  rewrite storage_modify_ticked, !storage_modify_put. done.
Qed.

Lemma get_remaining_requests_eq clock cfg id w :
  get_remaining_requests clock cfg id w =
  let r := pruned cfg (clock (ticks w)) (clock (S (ticks w)))
             (clock (S (S (ticks w)))) (record_of w id) in
  (mkRemaining (requests_per_minute cfg - len (minute_deque r))
               (requests_per_hour cfg - len (hour_deque r))
               (requests_per_day cfg - len (day_deque r)),
   put id r (S (S (S (ticks w)))) w).
Proof.
  unfold get_remaining_requests, mbind, M_bind, mret, M_ret.
  rewrite cleanup_eq, !cleanup_put, !storage_getitem_put. done.
Qed.

Lemma is_rate_limited_loop_cons clock cfg id wt wts w :
  is_rate_limited_loop clock cfg id (wt :: wts) w =
  let r := set_deque wt
             (popleft_while_old (clock (ticks w)) (window_seconds_of cfg wt)
                (deque_of wt (record_of w id)))
             (record_of w id) in
  if len (deque_of wt r) >=? requests_per cfg wt
  then (Limited wt (requests_per cfg wt) (len (deque_of wt r)),
        put id r (S (ticks w)) w)
  else is_rate_limited_loop clock cfg id wts (put id r (S (ticks w)) w).
Proof.
  cbn [is_rate_limited_loop]. unfold mbind, M_bind.
  rewrite cleanup_eq, storage_getitem_put. cbv zeta.
  by destruct (_ >=? _).
Qed.

(** The whole of [is_rate_limited], window by window. *)
Lemma is_rate_limited_eq clock cfg id w :
  let t := ticks w in
  let r0 := record_of w id in
  let r1 := set_deque minute
              (popleft_while_old (clock (S t)) (minute_window cfg) (minute_deque r0)) r0 in
  let r2 := set_deque hour
              (popleft_while_old (clock (S (S t))) (hour_window cfg) (hour_deque r1)) r1 in
  let r3 := set_deque day
              (popleft_while_old (clock (S (S (S t)))) (day_window cfg) (day_deque r2)) r2 in
  is_rate_limited clock cfg id w =
  if len (minute_deque r1) >=? requests_per_minute cfg
  then (Limited minute (requests_per_minute cfg) (len (minute_deque r1)),
        put id r1 (S (S t)) w)
  else if len (hour_deque r2) >=? requests_per_hour cfg
  then (Limited hour (requests_per_hour cfg) (len (hour_deque r2)),
        put id r2 (S (S (S t))) w)
  else if len (day_deque r3) >=? requests_per_day cfg
  then (Limited day (requests_per_day cfg) (len (day_deque r3)),
        put id r3 (S (S (S (S t)))) w)
  else (NotLimited, put id r3 (S (S (S (S t)))) w).
Proof.
  cbv zeta. unfold is_rate_limited, mbind, M_bind, time_time.
  rewrite is_rate_limited_loop_cons. cbv zeta.
  change (record_of (mkWorld (storage w) (S (ticks w))) id) with (record_of w id).
  change (put id ?r ?n (mkWorld (storage w) (S (ticks w)))) with (put id r n w).
  destruct (record_of w id) as [qm qh qd].
  cbn [ticks deque_of set_deque minute_deque hour_deque day_deque
       requests_per window_seconds_of].
  destruct (len _ >=? requests_per_minute cfg); [done|].
  rewrite is_rate_limited_loop_cons; cbv zeta; rewrite !record_of_put, !put_put.
  cbn [ticks deque_of set_deque minute_deque hour_deque day_deque
       requests_per window_seconds_of].
  destruct (len _ >=? requests_per_hour cfg); [done|].
  rewrite is_rate_limited_loop_cons; cbv zeta; rewrite !record_of_put, !put_put.
  cbn [ticks deque_of set_deque minute_deque hour_deque day_deque
       requests_per window_seconds_of].
  destruct (len _ >=? requests_per_day cfg); done.
Qed.

(** ** The pruning loop *)

Lemma popleft_while_old_split now W q :
  exists removed,
    q = removed ++ popleft_while_old now W q
    /\ Forall (fun t => t < now - W) removed.
Proof.
  induction q as [|t q IH]; simpl.
  - by exists [].
  - destruct (Z.gtb_spec (now - t) W) as [Hold|Hkeep].
    + destruct IH as (removed & Hq & Hrem).
      exists (t :: removed). split.
      * simpl. by f_equal.
      * constructor; [lia | done].
    + by exists [].
Qed.

Lemma popleft_while_old_suffix now W q : popleft_while_old now W q `suffix_of` q.
Proof. destruct (popleft_while_old_split now W q) as (removed & Hq & _). by exists removed. Qed.

Lemma popleft_while_old_length now W q :
  (length (popleft_while_old now W q) <= length q)%nat.
Proof. apply suffix_length, popleft_while_old_suffix. Qed.

Lemma popleft_while_old_head now W q t q' :
  popleft_while_old now W q = t :: q' -> now - t <= W.
Proof.
  induction q as [|u q IH]; simpl; [done|].
  destruct (Z.gtb_spec (now - u) W); [done|].
  intros [= -> _]. done.
Qed.

(** Pruning twice at one instant is pruning once. *)
Lemma popleft_while_old_idem now W q :
  popleft_while_old now W (popleft_while_old now W q) = popleft_while_old now W q.
Proof.
  destruct (popleft_while_old now W q) as [|t q'] eqn:E; [done|].
  apply popleft_while_old_head in E. simpl.
  destruct (Z.gtb_spec (now - t) W); [lia | done].
Qed.

(** Nothing is popped when the head is within the window. *)
Lemma popleft_while_old_fresh now W q :
  Forall (fun t => now - t <= W) q -> popleft_while_old now W q = q.
Proof.
  destruct 1 as [|t q Ht _]; simpl; [done|].
  destruct (Z.gtb_spec (now - t) W); [lia | done].
Qed.

Lemma Sorted_le_app_inv (l1 l2 : list Z) :
  Sorted Z.le (l1 ++ l2) ->
  Sorted Z.le l1 /\ Sorted Z.le l2 /\
  forall x y, x ∈ l1 -> y ∈ l2 -> x <= y.
Proof.
  intros Hs. apply Sorted_StronglySorted in Hs; [|intros x y z; lia].
  induction l1 as [|a l1 IH]; simpl in *.
  - split; [constructor|]. split; [by apply StronglySorted_Sorted|].
    intros x y Hx. by apply elem_of_nil in Hx.
  - inversion Hs as [|? ? Hs' Hall]; subst.
    destruct (IH Hs') as (S1 & S2 & Hle).
    split.
    + apply StronglySorted_Sorted. constructor.
      * by apply Sorted_StronglySorted; [intros x y z; lia|].
      * rewrite Forall_app in Hall. tauto.
    + split; [done|]. intros x y Hx Hy.
      apply elem_of_cons in Hx as [->|Hx]; [|by apply Hle].
      rewrite Forall_forall in Hall. apply Hall.
      apply elem_of_app. by right.
Qed.

Lemma Sorted_le_snoc (l : list Z) (x : Z) :
  Sorted Z.le l -> Forall (fun t => t <= x) l -> Sorted Z.le (l ++ [x]).
Proof.
  induction l as [|a l IH]; simpl; intros Hs Hall.
  - repeat constructor.
  - inversion Hs; subst. inversion Hall; subst.
    constructor; [by apply IH|].
    destruct l; simpl; constructor; [lia|].
    match goal with H : HdRel _ _ (_ :: _) |- _ => by inversion H end.
Qed.

Lemma Sorted_le_suffix (l k : list Z) :
  l `suffix_of` k -> Sorted Z.le k -> Sorted Z.le l.
Proof. intros [pre ->] Hs. by apply Sorted_le_app_inv in Hs as (_ & ? & _). Qed.

Lemma filter_keeps_all (P : Z -> Prop) `{!forall t, Decision (P t)} (l : list Z) :
  Forall P l -> filter P l = l.
Proof.
  induction 1 as [|t l Ht _ IH]; [done|].
  by rewrite filter_cons_True, IH.
Qed.

Lemma filter_drops_all (P : Z -> Prop) `{!forall t, Decision (P t)} (l : list Z) :
  Forall (fun t => ~ P t) l -> filter P l = [].
Proof.
  induction 1 as [|t l Ht _ IH]; [done|].
  by rewrite filter_cons_False.
Qed.

(** On an ordered deque the loop keeps exactly the timestamps within the
    window. *)
Lemma popleft_while_old_sorted now W q :
  Sorted Z.le q ->
  popleft_while_old now W q = filter (fun t => now - t <= W) q
  /\ Forall (fun t => now - t <= W) (popleft_while_old now W q).
Proof.
  intros Hs.
  destruct (popleft_while_old_split now W q) as (removed & Hq & Hrem).
  assert (Hkept : Forall (fun t => now - t <= W) (popleft_while_old now W q)).
  { destruct (popleft_while_old now W q) as [|h q'] eqn:E; [constructor|].
    pose proof (popleft_while_old_head _ _ _ _ _ E) as Hh.
    rewrite Hq in Hs. apply Sorted_le_app_inv in Hs as (_ & Hs & _).
    apply Sorted_StronglySorted in Hs; [|intros x y z; lia].
    inversion Hs as [|? ? _ Hall]; subst.
    constructor; [done|].
    eapply Forall_impl; [exact Hall|]. simpl. intros; lia. }
  split; [|done].
  rewrite Hq at 2. rewrite filter_app.
  rewrite (filter_drops_all _ removed), (filter_keeps_all _ _ Hkept); [done|].
  eapply Forall_impl; [exact Hrem|]. simpl. intros; lia.
Qed.

(** What [is_rate_limited] leaves behind and what its answer means. *)
Lemma is_rate_limited_outcome clock cfg id w :
  exists r' k,
    after (is_rate_limited clock cfg id) w = put id r' (ticks w + k) w
    /\ (forall wt, deque_of wt r' `suffix_of` deque_of wt (record_of w id))
    /\ match result (is_rate_limited clock cfg id) w with
       | NotLimited => forall wt, len (deque_of wt r') < requests_per cfg wt
       | Limited wt limit current =>
           limit = requests_per cfg wt /\ current = len (deque_of wt r')
           /\ limit <= current
       end.
Proof.
  unfold after, result.
  pose proof (is_rate_limited_eq clock cfg id w) as E. cbv zeta in E.
  destruct (record_of w id) as [qm qh qd].
  cbn [set_deque minute_deque hour_deque day_deque] in E.
  pose proof (popleft_while_old_suffix (clock (S (ticks w))) (minute_window cfg) qm).
  pose proof (popleft_while_old_suffix (clock (S (S (ticks w)))) (hour_window cfg) qh).
  pose proof (popleft_while_old_suffix (clock (S (S (S (ticks w))))) (day_window cfg) qd).
  destruct (Z.geb_spec (len (popleft_while_old (clock (S (ticks w)))
                               (minute_window cfg) qm)) (requests_per_minute cfg)).
  { rewrite E. eexists _, 2%nat. simpl. split; [by rewrite Nat.add_comm|].
    split; [by intros []|]. repeat split; lia. }
  destruct (Z.geb_spec (len (popleft_while_old (clock (S (S (ticks w))))
                               (hour_window cfg) qh)) (requests_per_hour cfg)).
  { rewrite E. eexists _, 3%nat. simpl. split; [by rewrite Nat.add_comm|].
    split; [by intros []|]. repeat split; lia. }
  destruct (Z.geb_spec (len (popleft_while_old (clock (S (S (S (ticks w)))))
                               (day_window cfg) qd)) (requests_per_day cfg)).
  { rewrite E. eexists _, 4%nat. simpl. split; [by rewrite Nat.add_comm|].
    split; [by intros []|]. repeat split; lia. }
  rewrite E. eexists _, 4%nat. simpl. split; [by rewrite Nat.add_comm|].
  split; [by intros []|]. by intros [].
Qed.

(** ** Pruning under any clock *)

(** C7. Pruning is total and, whatever the clock reads (in particular a
    value earlier than stored timestamps), it removes a prefix of the
    deque made only of timestamps strictly before [now - window]: no
    entry at or after [now - window] is removed; with a non-negative
    window no removed entry lies in the future; what is kept is the rest
    of the deque in its order, and the other deques and the other
    clients are untouched. *)
Theorem cleanup_tolerates_backward_clock clock cfg id wt w :
  let now := clock (ticks w) in
  let W := window_seconds_of cfg wt in
  let q := deque_of wt (record_of w id) in
  let w' := after (_cleanup_old_requests clock cfg id wt) w in
  exists removed,
    q = removed ++ deque_of wt (record_of w' id)
    /\ Forall (fun t => t < now - W) removed
    /\ (0 <= W -> Forall (fun t => t <= now) removed)
    /\ (forall wt', wt' ≠ wt ->
        deque_of wt' (record_of w' id) = deque_of wt' (record_of w id))
    /\ (forall id', id' ≠ id -> storage w' !! id' = storage w !! id').
Proof.
  intros now W q w'. subst w'. unfold after. rewrite cleanup_eq; simpl.
  destruct (popleft_while_old_split now W q) as (removed & Hq & Hrem).
  exists removed. rewrite record_of_put, deque_of_set_deque.
  split; [done|]. split; [done|]. split.
  - intros HW. eapply Forall_impl; [exact Hrem|]. simpl. intros; lia.
  - split.
    + intros wt' Hne. by rewrite deque_of_set_deque_ne.
    + intros id' Hne. by rewrite lookup_insert_ne.
Qed.

Lemma cleanup_tolerates_backward_clock_witness :
  let w := put "9.9.9.9" (mkRecord [80; 100; 200; 300] [80] []) 0 fresh_world in
  let w' := after (_cleanup_old_requests (fun _ => 150) RATE_LIMIT_CONFIG
                     "9.9.9.9" minute) w in
  deque_of minute (record_of w' "9.9.9.9") = [100; 200; 300]
  /\ exists removed,
       [80; 100; 200; 300] = removed ++ deque_of minute (record_of w' "9.9.9.9")
       /\ Forall (fun t => t < 150 - 60) removed.
Proof.
  intros w w'. split; [vm_compute; reflexivity|].
  destruct (cleanup_tolerates_backward_clock (fun _ => 150) RATE_LIMIT_CONFIG
              "9.9.9.9" minute w) as (removed & Hq & Hrem & _).
  exists removed. split; [exact Hq | exact Hrem].
Defined.

(** ** Zero ceilings *)

(** C6. When one of the three ceilings is zero, [is_rate_limited] answers
    limited for every client, clock and store, naming a window and that
    window's ceiling; for a client without history and a zero minute
    ceiling the answer is the minute window with limit 0 and count 0. *)
Theorem zero_ceiling_denies_everything clock cfg id w :
  requests_per_minute cfg = 0 \/ requests_per_hour cfg = 0
  \/ requests_per_day cfg = 0 ->
  (exists wt current,
      result (is_rate_limited clock cfg id) w
      = Limited wt (requests_per cfg wt) current)
  /\ (requests_per_minute cfg = 0 -> record_of w id = empty_record ->
      result (is_rate_limited clock cfg id) w = Limited minute 0 0).
Proof.
  intros Hzero. split.
  - destruct (is_rate_limited_outcome clock cfg id w) as (r' & k & _ & _ & Hres).
    destruct (result (is_rate_limited clock cfg id) w) as [|wt limit current].
    + pose proof (Hres minute). pose proof (Hres hour). pose proof (Hres day).
      unfold len in *. simpl in *. lia.
    + destruct Hres as (-> & _ & _). by exists wt, current.
  - intros Hz Hempty. unfold result. rewrite is_rate_limited_eq. cbv zeta.
    rewrite Hempty, Hz. reflexivity.
Qed.

Lemma zero_ceiling_denies_everything_witness :
  result (is_rate_limited (fun _ => 1000)
            (mkRateLimitConfig 0 15 30 60 3600 86400 true) "9.9.9.9")
    fresh_world
  = Limited minute 0 0.
Proof.
  apply (proj2 (zero_ceiling_denies_everything (fun _ => 1000)
                  (mkRateLimitConfig 0 15 30 60 3600 86400 true) "9.9.9.9"
                  fresh_world (or_introl eq_refl))).
  - reflexivity.
  - vm_compute. reflexivity.
Defined.

(** ** Admission does not record *)

Lemma remaining_after_pruning clock cfg id r k w now :
  (forall n, (ticks w <= n)%nat -> clock n = now) ->
  (forall wt, deque_of wt r = deque_of wt (record_of w id)
              \/ deque_of wt r
                 = popleft_while_old now (window_seconds_of cfg wt)
                     (deque_of wt (record_of w id))) ->
  result (get_remaining_requests clock cfg id) (put id r (ticks w + k) w)
  = result (get_remaining_requests clock cfg id) w.
Proof.
  intros Hclk Hr. unfold result.
  rewrite !get_remaining_requests_eq. cbv zeta. simpl.
  rewrite record_of_put.
  rewrite !Hclk by lia.
  pose proof (Hr minute) as Hm. pose proof (Hr hour) as Hh.
  pose proof (Hr day) as Hd. simpl in Hm, Hh, Hd.
  assert (forall W q q', q' = q \/ q' = popleft_while_old now W q ->
            popleft_while_old now W q' = popleft_while_old now W q) as Hidem.
  { intros W q q' [->| ->]; [done | apply popleft_while_old_idem]. }
  by rewrite (Hidem _ _ _ Hm), (Hidem _ _ _ Hh), (Hidem _ _ _ Hd).
Qed.

(** Under a clock that stands still, [is_rate_limited] leaves each deque
    as it was or pruned at that instant. *)
Lemma is_rate_limited_prunes_only clock cfg id w now :
  (forall n, (ticks w <= n)%nat -> clock n = now) ->
  exists r' k,
    after (is_rate_limited clock cfg id) w = put id r' (ticks w + k) w
    /\ forall wt, deque_of wt r' = deque_of wt (record_of w id)
                  \/ deque_of wt r'
                     = popleft_while_old now (window_seconds_of cfg wt)
                         (deque_of wt (record_of w id)).
Proof.
  intros Hclk. unfold after. rewrite is_rate_limited_eq. cbv zeta.
  rewrite !Hclk by lia.
  destruct (record_of w id) as [qm qh qd].
  cbn [set_deque minute_deque hour_deque day_deque].
  repeat match goal with |- context [if ?b then _ else _] => destruct b end;
    simpl.
  - eexists _, 2%nat. split; [by rewrite Nat.add_comm|]. intros []; simpl; auto.
  - eexists _, 3%nat. split; [by rewrite Nat.add_comm|]. intros []; simpl; auto.
  - eexists _, 4%nat. split; [by rewrite Nat.add_comm|]. intros []; simpl; auto.
  - eexists _, 4%nat. split; [by rewrite Nat.add_comm|]. intros []; simpl; auto.
Qed.

(** C4. If [is_rate_limited] answers limited, the remaining quota of that
    client, read at the same instant, is what it was before the call; and
    the call appended nothing: each deque is a suffix of what it was. *)
Theorem denied_admission_keeps_remaining clock cfg id w now wt limit current :
  (forall n, (ticks w <= n)%nat -> clock n = now) ->
  result (is_rate_limited clock cfg id) w = Limited wt limit current ->
  result (get_remaining_requests clock cfg id)
    (after (is_rate_limited clock cfg id) w)
  = result (get_remaining_requests clock cfg id) w
  /\ forall wt',
      deque_of wt' (record_of (after (is_rate_limited clock cfg id) w) id)
      `suffix_of` deque_of wt' (record_of w id).
Proof.
  intros Hclk _. split.
  - destruct (is_rate_limited_prunes_only clock cfg id w now Hclk)
      as (r' & k & -> & Hr).
    by apply (remaining_after_pruning clock cfg id r' k w now).
  - destruct (is_rate_limited_outcome clock cfg id w) as (r' & k & -> & Hsuf & _).
    intros wt'. by rewrite record_of_put.
Qed.

Lemma denied_admission_keeps_remaining_witness :
  let w := put "9.9.9.9" (mkRecord [10; 950; 960; 970] [10; 950; 960; 970]
                            [10; 950; 960; 970]) 7 fresh_world in
  result (get_remaining_requests (fun _ => 1000) RATE_LIMIT_CONFIG "9.9.9.9")
    (after (is_rate_limited (fun _ => 1000) RATE_LIMIT_CONFIG "9.9.9.9") w)
  = mkRemaining 0 11 26.
Proof.
  intros w.
  rewrite (proj1 (denied_admission_keeps_remaining (fun _ => 1000)
                    RATE_LIMIT_CONFIG "9.9.9.9" w 1000 minute 3 3
                    (fun _ _ => eq_refl) eq_refl)).
  vm_compute. reflexivity.
Defined.

(** ** The gate and bots *)

Lemma is_bot_reason cfg request client_ip reason :
  is_bot cfg request client_ip = (true, reason) -> exists s, reason = Some s.
Proof.
  unfold is_bot.
  repeat match goal with |- context [if ?b then _ else _] => destruct b end;
    intros [= <-]; eauto.
Qed.

(** C8. When the bot protector rejects the request, the decorated
    function returns the 403 body "Access denied" / "Bot detection" with
    the protector's reason as details, and the world, hence every
    client's record in the limiter's store, is exactly as before: nothing
    was pruned, appended or created, and the clock was not read. *)
Theorem bot_rejection_leaves_limiter_untouched
    clock rate_config bot_config (R : Type) (has_headers : R -> bool)
    (f : string -> Remaining -> M R) request w reason :
  is_bot bot_config request (_get_client_ip request) = (true, reason) ->
  rate_limit_and_protect clock rate_config bot_config R has_headers f request w
  = (Response403 "Access denied" "Bot detection" reason, w)
  /\ exists s, reason = Some s.
Proof.
  intros Hbot. split.
  - unfold rate_limit_and_protect. by rewrite Hbot.
  - by eapply is_bot_reason.
Qed.

Lemma bot_rejection_leaves_limiter_untouched_witness :
  let request := mkRequest None None (Some "curl/7.68.0") "9.9.9.9" in
  let w := put "9.9.9.9" (mkRecord [990] [990] [990]) 1 fresh_world in
  rate_limit_and_protect (fun _ => 1000) RATE_LIMIT_CONFIG BOT_PROTECTION_CONFIG
    unit (fun _ => true) (fun _ _ => mret tt) request w
  = (Response403 "Access denied" "Bot detection"
       (Some "Bot user agent detected: curl/7.68.0"), w).
Proof.
  intros request w.
  apply (bot_rejection_leaves_limiter_untouched (fun _ => 1000) RATE_LIMIT_CONFIG
           BOT_PROTECTION_CONFIG unit (fun _ => true) (fun _ _ => mret tt)
           request w (Some "Bot user agent detected: curl/7.68.0")).
  vm_compute. reflexivity.
Defined.

(** ** Reset and the records queries create *)

Lemma reset_rate_limit_present id w :
  is_Some (storage w !! id) ->
  reset_rate_limit id w = (true, mkWorld (delete id (storage w)) (ticks w)).
Proof. intros [r Hr]. unfold reset_rate_limit. by rewrite Hr. Qed.

Lemma reset_rate_limit_absent id w :
  storage w !! id = None -> reset_rate_limit id w = (false, w).
Proof. intros Hr. unfold reset_rate_limit. by rewrite Hr. Qed.

Lemma get_remaining_requests_unseen clock cfg id w :
  record_of w id = empty_record ->
  result (get_remaining_requests clock cfg id) w = ceilings cfg.
Proof.
  intros Hr. unfold result. rewrite get_remaining_requests_eq. cbv zeta.
  rewrite Hr. unfold ceilings, len. simpl. f_equal; lia.
Qed.

Lemma admit_and_record_eq clock cfg id w :
  admit_and_record clock cfg id w =
  match result (is_rate_limited clock cfg id) w with
  | NotLimited =>
      (NotLimited,
       after (record_request clock id) (after (is_rate_limited clock cfg id) w))
  | Limited wt limit current =>
      (Limited wt limit current, after (is_rate_limited clock cfg id) w)
  end.
Proof.
  unfold admit_and_record, mbind, M_bind, result, after, mret, M_ret.
  destruct (is_rate_limited clock cfg id w) as [[|wt limit current] w1]; simpl; [|done].
  by destruct (record_request clock id w1) as [[] w2].
Qed.

(** C9. Resetting a client that has a record returns true and removes the
    record, after which the remaining quota, whenever it is read, is the
    full ceiling of every window; an admitted-and-recorded request leaves
    such a record.  Resetting a client without a record returns false and
    changes nothing. *)
Theorem reset_discards_record clock cfg id :
  (forall w, is_Some (storage w !! id) ->
     result (reset_rate_limit id) w = true
     /\ storage (after (reset_rate_limit id) w) = delete id (storage w)
     /\ forall clock',
         result (get_remaining_requests clock' cfg id)
           (after (reset_rate_limit id) w)
         = ceilings cfg)
  /\ (forall w, result (admit_and_record clock cfg id) w = NotLimited ->
        is_Some (storage (after (admit_and_record clock cfg id) w) !! id))
  /\ (forall w, storage w !! id = None -> reset_rate_limit id w = (false, w)).
Proof.
  split; [|split].
  - intros w Hsome. unfold result, after.
    rewrite reset_rate_limit_present by done. simpl.
    split; [done|]. split; [done|]. intros clock'.
    apply get_remaining_requests_unseen.
    unfold record_of; simpl. by rewrite lookup_delete_eq.
  - intros w Hres. unfold result, after in *.
    rewrite admit_and_record_eq in *.
    destruct (result (is_rate_limited clock cfg id) w); [|done].
    simpl. unfold after. rewrite record_request_eq. simpl.
    rewrite lookup_insert_eq. eauto.
  - apply reset_rate_limit_absent.
Qed.

Lemma reset_discards_record_witness :
  let clock := fun n : nat => 1000 + Z.of_nat n in
  let w1 := after (admit_and_record clock RATE_LIMIT_CONFIG "9.9.9.9") fresh_world in
  result (reset_rate_limit "9.9.9.9") w1 = true
  /\ result (get_remaining_requests clock RATE_LIMIT_CONFIG "9.9.9.9")
       (after (reset_rate_limit "9.9.9.9") w1)
     = mkRemaining 3 15 30
  /\ reset_rate_limit "1.2.3.4" w1 = (false, w1).
Proof.
  intros clock w1.
  destruct (reset_discards_record clock RATE_LIMIT_CONFIG "9.9.9.9")
    as (Hreset & Hrec & _).
  destruct (Hreset w1 (Hrec fresh_world eq_refl)) as (Htrue & _ & Hfull).
  split; [exact Htrue|]. split; [exact (Hfull clock)|].
  apply (proj2 (proj2 (reset_discards_record clock RATE_LIMIT_CONFIG "1.2.3.4"))).
  vm_compute. reflexivity.
Defined.

(** C10. For a client without a record, [reset_rate_limit] returns false;
    but [get_remaining_requests] and [is_rate_limited] each insert an
    empty record for that client, so that a reset right after the query
    returns true although no request was ever recorded. *)
Theorem query_creates_record clock cfg id w :
  storage w !! id = None ->
  result (reset_rate_limit id) w = false
  /\ storage (after (get_remaining_requests clock cfg id) w) !! id
     = Some empty_record
  /\ result (reset_rate_limit id) (after (get_remaining_requests clock cfg id) w)
     = true
  /\ storage (after (is_rate_limited clock cfg id) w) !! id = Some empty_record
  /\ result (reset_rate_limit id) (after (is_rate_limited clock cfg id) w) = true.
Proof.
  intros Hnone.
  assert (record_of w id = empty_record) as Hr by (unfold record_of; by rewrite Hnone).
  assert (storage (after (get_remaining_requests clock cfg id) w) !! id
          = Some empty_record) as Hq.
  { unfold after. rewrite get_remaining_requests_eq. cbv zeta. rewrite Hr. simpl.
    by rewrite lookup_insert_eq. }
  assert (storage (after (is_rate_limited clock cfg id) w) !! id
          = Some empty_record) as Ha.
  { unfold after. rewrite is_rate_limited_eq. cbv zeta. rewrite Hr. simpl.
    repeat match goal with |- context [if ?b then _ else _] => destruct b end;
      simpl; by rewrite lookup_insert_eq. }
  unfold result at 1. rewrite reset_rate_limit_absent by done.
  split; [done|]. split; [done|]. split; [|split; [done|]].
  - unfold result. by rewrite reset_rate_limit_present by (rewrite Hq; eauto).
  - unfold result. by rewrite reset_rate_limit_present by (rewrite Ha; eauto).
Qed.

Lemma query_creates_record_witness :
  result (reset_rate_limit "9.9.9.9") fresh_world = false
  /\ result (reset_rate_limit "9.9.9.9")
       (after (get_remaining_requests (fun _ => 1000) RATE_LIMIT_CONFIG "9.9.9.9")
          fresh_world)
     = true.
Proof.
  destruct (query_creates_record (fun _ => 1000) RATE_LIMIT_CONFIG "9.9.9.9"
              fresh_world eq_refl) as (H1 & _ & H2 & _).
  split; [exact H1 | exact H2].
Defined.

(** ** Whitelist and blacklist *)

(** C2, as stated, fails: with the known-bot address list enforced, a
    request whose user agent is whitelisted is still rejected when it
    comes from a listed address. *)
Lemma whitelist_does_not_override_known_bot_ip :
  ~ (forall cfg request client_ip,
        _has_required_headers cfg request = true ->
        existsb (fun allowed_agent =>
                   py_in (py_lower allowed_agent) (_get_user_agent request))
                (allowed_user_agents cfg) = true ->
        fst (is_bot cfg request client_ip) = false).
Proof.
  intros H.
  specialize (H (mkBotProtectionConfig true true true ["curl"] ["6.6.6.6"]
                   ["instafit-extension"])
                (mkRequest None None (Some "InstaFit-Extension/1.0") "6.6.6.6")
                "6.6.6.6" eq_refl eq_refl).
  vm_compute in H. discriminate H.
Qed.

(** C2, amended. For a request that passes the required-header check and
    whose lower-cased user agent contains a lower-cased whitelist entry,
    the user-agent check answers "not a bot" whatever the blacklist
    patterns are, and [is_bot] then depends on the known-bot address
    check alone: the request is rejected with "Known bot IP" when that
    check is enabled and the client is listed, and allowed otherwise. *)
Theorem whitelist_overrides_blacklist_only cfg request client_ip :
  _has_required_headers cfg request = true ->
  existsb (fun allowed_agent =>
             py_in (py_lower allowed_agent) (_get_user_agent request))
          (allowed_user_agents cfg) = true ->
  _is_bot_user_agent cfg (_get_user_agent request) = false
  /\ is_bot cfg request client_ip
     = (if _is_known_bot_ip cfg client_ip
        then (true, Some "Known bot IP") else (false, None))
  /\ (block_known_bot_ips cfg = false \/ client_ip ∉ known_bot_ips cfg ->
      is_bot cfg request client_ip = (false, None)).
Proof.
  intros Hhdr Hwhite.
  assert (_is_bot_user_agent cfg (_get_user_agent request) = false) as Hua.
  { unfold _is_bot_user_agent. rewrite Hwhite. by destruct (negb _). }
  assert (is_bot cfg request client_ip
          = (if _is_known_bot_ip cfg client_ip
             then (true, Some "Known bot IP") else (false, None))) as Hbot.
  { unfold is_bot. by rewrite Hhdr, Hua. }
  split; [done|]. split; [done|].
  intros Hip. rewrite Hbot. unfold _is_known_bot_ip.
  destruct Hip as [-> | Hnot]; [done|].
  destruct (negb _); [done|]. by rewrite bool_decide_eq_false_2.
Qed.

Lemma whitelist_overrides_blacklist_only_witness :
  is_bot BOT_PROTECTION_CONFIG
    (mkRequest None None (Some "InstaFit-Extension/1.0 python-requests/2.31")
       "9.9.9.9")
    "9.9.9.9"
  = (false, None).
Proof.
  apply (proj2 (proj2 (whitelist_overrides_blacklist_only BOT_PROTECTION_CONFIG
           (mkRequest None None (Some "InstaFit-Extension/1.0 python-requests/2.31")
              "9.9.9.9")
           "9.9.9.9" eq_refl eq_refl))).
  left. reflexivity.
Defined.

(** ** The footprint of a call *)

Lemma after_then_ret {A} (m : M A) w : after (m ;; mret tt) w = after m w.
Proof.
  unfold after, mbind, M_bind, mret, M_ret. by destruct (m w).
Qed.

Lemma set_deque_suffix wt q r :
  q `suffix_of` deque_of wt r ->
  forall wt', deque_of wt' (set_deque wt q r) `suffix_of` deque_of wt' r.
Proof. intros Hq wt'. by destruct wt, wt'. Qed.

Lemma pruned_suffix cfg tm th td r :
  forall wt, deque_of wt (pruned cfg tm th td r) `suffix_of` deque_of wt r.
Proof. intros []; apply popleft_while_old_suffix. Qed.

Lemma run_call_touched clock cfg c w :
  touched clock cfg (gated c) w (after (run_call clock cfg c) w).
Proof.
  destruct c as [id wt|id|id|id|id|id]; simpl run_call; rewrite ?after_then_ret.
  - unfold after. rewrite cleanup_eq. simpl.
    replace (S (ticks w)) with (ticks w + 1)%nat by lia.
    apply touched_prune, set_deque_suffix, popleft_while_old_suffix.
  - destruct (is_rate_limited_outcome clock cfg id w) as (r' & k & -> & Hsuf & _).
    by apply touched_prune.
  - unfold after. rewrite record_request_eq. simpl.
    replace (S (ticks w)) with (ticks w + 1)%nat by lia.
    apply (touched_append _ _ _ _ _ _ 0%nat); [lia|].
    intros wt. exists (deque_of wt (record_of w id)).
    rewrite Nat.add_0_r. split; [done|]. split; [by destruct wt | done].
  - unfold after. rewrite get_remaining_requests_eq. cbv zeta. simpl.
    replace (S (S (S (ticks w)))) with (ticks w + 3)%nat by lia.
    apply touched_prune, pruned_suffix.
  - unfold after, reset_rate_limit.
    destruct (storage w !! id); simpl; constructor.
  - unfold after at 1. rewrite admit_and_record_eq.
    destruct (is_rate_limited_outcome clock cfg id w) as (r' & k & Hw & Hsuf & Hres).
    destruct (result (is_rate_limited clock cfg id) w); simpl.
    + rewrite Hw. unfold after. rewrite record_request_eq. simpl.
      rewrite record_of_put, put_put.
      replace (S (ticks w + k)) with (ticks w + S k)%nat by lia.
      apply (touched_append _ _ _ _ _ _ k); [lia|].
      intros wt. exists (deque_of wt r').
      split; [done|]. split; [by destruct wt | by intros _].
    + rewrite Hw. by apply touched_prune.
Qed.

(** ** Remaining quota *)

Lemma suffix_len (l k : list Z) : l `suffix_of` k -> len l <= len k.
Proof. intros H. apply suffix_length in H. unfold len. lia. Qed.

Lemma record_within_of cfg w id :
  0 <= requests_per_minute cfg -> 0 <= requests_per_hour cfg ->
  0 <= requests_per_day cfg ->
  within_quota cfg w -> record_within cfg (record_of w id).
Proof.
  intros Hm Hh Hd Hw. unfold record_of.
  destruct (storage w !! id) as [r|] eqn:E; simpl.
  - by eapply Hw.
  - by intros [].
Qed.

Lemma within_quota_put cfg id r n w :
  within_quota cfg w -> record_within cfg r -> within_quota cfg (put id r n w).
Proof.
  intros Hw Hr id' r'. unfold put; simpl.
  destruct (decide (id = id')) as [->|Hne].
  - rewrite lookup_insert_eq. by intros [= <-].
  - rewrite lookup_insert_ne by done. apply Hw.
Qed.

Lemma within_quota_touched clock cfg w w' :
  0 <= requests_per_minute cfg -> 0 <= requests_per_hour cfg ->
  0 <= requests_per_day cfg ->
  within_quota cfg w -> touched clock cfg true w w' -> within_quota cfg w'.
Proof.
  intros Hm Hh Hd Hw Ht.
  destruct Ht as [|id|id r' k Hsuf|id r' j k Hjk Happ].
  - done.
  - intros id' r; simpl. intros Hr.
    apply lookup_delete_Some in Hr as [_ Hr]. by eapply Hw.
  - apply within_quota_put; [done|]. intros wt.
    pose proof (record_within_of cfg w id Hm Hh Hd Hw wt).
    pose proof (suffix_len _ _ (Hsuf wt)). lia.
  - apply within_quota_put; [done|]. intros wt.
    destruct (Happ wt) as (s & _ & -> & Hlt). specialize (Hlt eq_refl).
    unfold len in *. rewrite length_app. simpl. lia.
Qed.

Lemma within_quota_run_calls clock cfg cs :
  0 <= requests_per_minute cfg -> 0 <= requests_per_hour cfg ->
  0 <= requests_per_day cfg ->
  forallb gated cs = true ->
  forall w, within_quota cfg w -> within_quota cfg (after (run_calls clock cfg cs) w).
Proof.
  intros Hm Hh Hd. induction cs as [|c cs IH]; simpl; intros Hg w Hw; [done|].
  apply andb_prop in Hg as [Hc Hcs].
  assert (after (run_call clock cfg c;; run_calls clock cfg cs) w
          = after (run_calls clock cfg cs) (after (run_call clock cfg c) w)) as ->.
  { unfold after, mbind, M_bind. by destruct (run_call clock cfg c w). }
  apply IH; [done|].
  eapply within_quota_touched; try done.
  rewrite <- Hc. apply run_call_touched.
Qed.

(** C3, as stated, fails: four bare [record_request] calls at one instant
    put four timestamps in the minute deque, and the remaining quota for
    the minute window (ceiling 3) is then reported as -1. *)
Lemma remaining_negative_after_bare_records :
  let w := after (run_calls (fun _ => 1000) RATE_LIMIT_CONFIG
                    (repeat (RecordRequest "9.9.9.9") 4)) fresh_world in
  let rem := result (get_remaining_requests (fun _ => 1000) RATE_LIMIT_CONFIG
                       "9.9.9.9") w in
  rem = mkRemaining (-1) 11 26 /\ ~ 0 <= remaining_minute rem.
Proof. vm_compute. split; [reflexivity | intros H; apply H; reflexivity]. Qed.

(** C3, amended. In every world [get_remaining_requests] returns, per
    window, the ceiling minus the length of the deque pruned at the clock
    value read for that window (a difference that bare records can drive
    below zero).  When the ceilings are non-negative and every request was
    recorded only after [is_rate_limited] answered not limited, as the
    decorator does, none of the three figures is negative. *)
Theorem remaining_is_ceiling_minus_count clock cfg :
  (forall id w,
      let r := pruned cfg (clock (ticks w)) (clock (S (ticks w)))
                 (clock (S (S (ticks w)))) (record_of w id) in
      result (get_remaining_requests clock cfg id) w
      = mkRemaining (requests_per_minute cfg - len (minute_deque r))
                    (requests_per_hour cfg - len (hour_deque r))
                    (requests_per_day cfg - len (day_deque r)))
  /\ (0 <= requests_per_minute cfg -> 0 <= requests_per_hour cfg ->
      0 <= requests_per_day cfg ->
      forall cs, forallb gated cs = true ->
      forall id,
        let rem := result (get_remaining_requests clock cfg id)
                     (after (run_calls clock cfg cs) fresh_world) in
        0 <= remaining_minute rem /\ 0 <= remaining_hour rem
        /\ 0 <= remaining_day rem).
Proof.
  split.
  - intros id w. unfold result. by rewrite get_remaining_requests_eq.
  - intros Hm Hh Hd cs Hg id.
    assert (within_quota cfg (after (run_calls clock cfg cs) fresh_world)) as Hq.
    { apply within_quota_run_calls; [done..|]. intros id' r; simpl.
      by rewrite lookup_empty. }
    set (w := after (run_calls clock cfg cs) fresh_world) in *.
    pose proof (record_within_of cfg w id Hm Hh Hd Hq) as Hr.
    unfold result. rewrite get_remaining_requests_eq. cbv zeta. simpl.
    pose proof (Hr minute). pose proof (Hr hour). pose proof (Hr day).
    pose proof (suffix_len _ _ (popleft_while_old_suffix (clock (ticks w))
                                  (minute_window cfg) (minute_deque (record_of w id)))).
    pose proof (suffix_len _ _ (popleft_while_old_suffix (clock (S (ticks w)))
                                  (hour_window cfg) (hour_deque (record_of w id)))).
    pose proof (suffix_len _ _ (popleft_while_old_suffix (clock (S (S (ticks w))))
                                  (day_window cfg) (day_deque (record_of w id)))).
    simpl in *. lia.
Qed.

Lemma remaining_is_ceiling_minus_count_witness :
  let clock := fun n : nat => 1000 + Z.of_nat n in
  let rem := result (get_remaining_requests clock RATE_LIMIT_CONFIG "9.9.9.9")
               (after (run_calls clock RATE_LIMIT_CONFIG
                         (repeat (AdmitAndRecord "9.9.9.9") 5)) fresh_world) in
  0 <= remaining_minute rem /\ 0 <= remaining_hour rem /\ 0 <= remaining_day rem.
Proof.
  intros clock.
  apply (proj2 (remaining_is_ceiling_minus_count clock RATE_LIMIT_CONFIG));
    [vm_compute; discriminate .. | reflexivity].
Defined.

(** ** Ordered deques under a monotone clock *)

Lemma record_ordered_mono now now' r :
  now <= now' -> record_ordered now r -> record_ordered now' r.
Proof.
  intros Hle Hr wt. destruct (Hr wt) as [Hs Hall]. split; [done|].
  eapply Forall_impl; [exact Hall|]. simpl. intros; lia.
Qed.

Lemma record_ordered_of clock w id :
  well_ordered clock w -> record_ordered (clock (ticks w)) (record_of w id).
Proof.
  intros Hw. unfold record_of.
  destruct (storage w !! id) as [r|] eqn:E; simpl.
  - by eapply Hw.
  - intros []; simpl; split; constructor.
Qed.

Lemma Forall_suffix_of (P : Z -> Prop) (l k : list Z) :
  l `suffix_of` k -> Forall P k -> Forall P l.
Proof. intros [pre ->] H. by apply Forall_app in H as [_ ?]. Qed.

Lemma well_ordered_put clock id r n w :
  monotone clock -> (ticks w <= n)%nat ->
  well_ordered clock w -> record_ordered (clock n) r ->
  well_ordered clock (put id r n w).
Proof.
  intros Hmono Hn Hw Hr id' r'. unfold put; simpl.
  destruct (decide (id = id')) as [->|Hne].
  - rewrite lookup_insert_eq. by intros [= <-].
  - rewrite lookup_insert_ne by done. intros Hr'.
    eapply record_ordered_mono; [|by eapply Hw]. by apply Hmono.
Qed.

Lemma well_ordered_touched clock cfg b w w' :
  monotone clock ->
  well_ordered clock w -> touched clock cfg b w w' -> well_ordered clock w'.
Proof.
  intros Hmono Hw Ht.
  destruct Ht as [|id|id r' k Hsuf|id r' j k Hjk Happ].
  - done.
  - intros id' r; simpl. intros Hr.
    apply lookup_delete_Some in Hr as [_ Hr]. by eapply Hw.
  - apply well_ordered_put; [done | lia | done |].
    intros wt. destruct (record_ordered_of clock w id Hw wt) as [Hs Hall].
    split.
    + exact (Sorted_le_suffix _ _ (Hsuf wt) Hs).
    + eapply Forall_impl; [exact (Forall_suffix_of _ _ _ (Hsuf wt) Hall)|].
      simpl. intros t Hle.
      pose proof (Hmono (ticks w) (ticks w + k)%nat ltac:(lia)). lia.
  - apply well_ordered_put; [done | lia | done |].
    intros wt. destruct (Happ wt) as (s & Hsuf & -> & _).
    destruct (record_ordered_of clock w id Hw wt) as [Hs Hall].
    pose proof (Forall_suffix_of _ _ _ Hsuf Hall) as Hall'.
    pose proof (Hmono (ticks w) (ticks w + j)%nat ltac:(lia)) as Hj.
    pose proof (Hmono (ticks w + j)%nat (ticks w + k)%nat ltac:(lia)) as Hk.
    split.
    + apply Sorted_le_snoc; [exact (Sorted_le_suffix _ _ Hsuf Hs)|].
      eapply Forall_impl; [exact Hall'|]. simpl. intros; lia.
    + apply Forall_app. split.
      * eapply Forall_impl; [exact Hall'|]. simpl. intros; lia.
      * by repeat constructor.
Qed.

Lemma after_run_calls_cons clock cfg c cs w :
  after (run_calls clock cfg (c :: cs)) w
  = after (run_calls clock cfg cs) (after (run_call clock cfg c) w).
Proof.
  simpl. unfold after, mbind, M_bind. by destruct (run_call clock cfg c w).
Qed.

(** C5. Under a clock that never goes back: every call keeps each deque
    in non-decreasing order with no timestamp ahead of the clock, so this
    holds after any sequence of calls from the empty store; and pruning a
    deque at [now] keeps exactly the timestamps [t] with
    [now - t <= window], all of which then lie within the window of [now],
    and what it keeps is a suffix of the deque (a prefix was trimmed). *)
Theorem deques_stay_ordered clock cfg :
  monotone clock ->
  (forall c w, well_ordered clock w ->
     well_ordered clock (after (run_call clock cfg c) w))
  /\ (forall cs, well_ordered clock (after (run_calls clock cfg cs) fresh_world))
  /\ (forall id wt w, well_ordered clock w ->
        let now := clock (ticks w) in
        let W := window_seconds_of cfg wt in
        let q := deque_of wt (record_of w id) in
        let q' := deque_of wt
                    (record_of (after (_cleanup_old_requests clock cfg id wt) w) id) in
        q' = filter (fun t => now - t <= W) q
        /\ Forall (fun t => 0 <= now - t <= W) q'
        /\ q' `suffix_of` q).
Proof.
  intros Hmono.
  assert (forall c w, well_ordered clock w ->
            well_ordered clock (after (run_call clock cfg c) w)) as Hstep.
  { intros c w Hw. eapply well_ordered_touched; [done | exact Hw |].
    apply run_call_touched. }
  split; [done|]. split.
  - intros cs.
    assert (forall w, well_ordered clock w ->
              well_ordered clock (after (run_calls clock cfg cs) w)) as Hall.
    { induction cs as [|c cs IH]; intros w Hw; [done|].
      rewrite after_run_calls_cons. by apply IH, Hstep. }
    apply Hall. intros id r; simpl. by rewrite lookup_empty.
  - intros id wt w Hw now W q q'. subst q'. unfold after.
    rewrite cleanup_eq; simpl. rewrite record_of_put, deque_of_set_deque.
    destruct (record_ordered_of clock w id Hw wt) as [Hs Hall].
    destruct (popleft_while_old_sorted now W q Hs) as [Hfilter Hkept].
    split; [done|]. split; [|apply popleft_while_old_suffix].
    pose proof (Forall_suffix_of _ _ _ (popleft_while_old_suffix now W q) Hall) as Hle.
    rewrite Forall_forall in *. intros t Ht.
    specialize (Hkept t Ht). specialize (Hle t Ht). simpl in *. subst now. lia.
Qed.

Lemma deques_stay_ordered_witness :
  let clock := fun n : nat => 1000 + 20 * Z.of_nat n in
  let w := after (run_calls clock RATE_LIMIT_CONFIG
                    [RecordRequest "9.9.9.9"; AdmitAndRecord "9.9.9.9";
                     RecordRequest "9.9.9.9"]) fresh_world in
  well_ordered clock w
  /\ deque_of minute
       (record_of (after (_cleanup_old_requests clock RATE_LIMIT_CONFIG
                            "9.9.9.9" minute) w) "9.9.9.9")
     = filter (fun t => clock (ticks w) - t <= 60) [1000; 1100; 1120].
Proof.
  intros clock w.
  assert (monotone clock) as Hmono by (intros i j Hij; unfold clock; lia).
  destruct (deques_stay_ordered clock RATE_LIMIT_CONFIG Hmono) as (_ & Hall & Hprune).
  split.
  - apply Hall.
  - apply (Hprune "9.9.9.9" minute w (Hall _)).
Defined.

(** ** Requests within one minute *)

Lemma admit_and_record_times_S clock cfg n id w :
  result (admit_and_record_times clock cfg (S n) id) w
  = result (admit_and_record clock cfg id) w
    :: result (admit_and_record_times clock cfg n id)
         (after (admit_and_record clock cfg id) w).
Proof.
  unfold result, after. simpl. unfold mbind, M_bind, mret, M_ret.
  destruct (admit_and_record clock cfg id w) as [r w1]; simpl.
  by destruct (admit_and_record_times clock cfg n id w1).
Qed.

Section WithinOneMinute.

Variable clock : nat -> Z.
Variable cfg : RateLimitConfig.
Variable id : string.
Variable t0 : nat.

Hypothesis ceiling_hour : requests_per_minute cfg <= requests_per_hour cfg.
Hypothesis ceiling_day : requests_per_minute cfg <= requests_per_day cfg.
Hypothesis window_hour : minute_window cfg <= hour_window cfg.
Hypothesis window_day : minute_window cfg <= day_window cfg.
Hypothesis within_one_minute : forall i j,
  (t0 <= i)%nat -> (t0 <= j)%nat -> clock i - clock j <= minute_window cfg.

Lemma burst_no_pruning q j W :
  Forall (fun t => forall j, (t0 <= j)%nat -> clock j - t <= minute_window cfg) q ->
  (t0 <= j)%nat -> minute_window cfg <= W ->
  popleft_while_old (clock j) W q = q.
Proof.
  intros Hq Hj HW. apply popleft_while_old_fresh.
  eapply Forall_impl; [exact Hq|]. simpl. intros t Ht.
  specialize (Ht j Hj). lia.
Qed.

Lemma is_rate_limited_in_burst k w :
  burst clock cfg id t0 k w ->
  is_rate_limited clock cfg id w
  = if Z.of_nat k >=? requests_per_minute cfg
    then (Limited minute (requests_per_minute cfg) (Z.of_nat k),
          put id (record_of w id) (S (S (ticks w))) w)
    else (NotLimited, put id (record_of w id) (S (S (S (S (ticks w))))) w).
Proof.
  intros (q & Hr & Hlen & Ht0 & Hq).
  rewrite is_rate_limited_eq. cbv zeta. rewrite Hr.
  cbn [set_deque minute_deque hour_deque day_deque].
  rewrite !(burst_no_pruning q) by (done || lia).
  unfold len. rewrite Hlen.
  destruct (Z.geb_spec (Z.of_nat k) (requests_per_minute cfg)) as [Hge|Hlt];
    [done|].
  destruct (Z.geb_spec (Z.of_nat k) (requests_per_hour cfg)); [lia|].
  destruct (Z.geb_spec (Z.of_nat k) (requests_per_day cfg)); [lia|].
  done.
Qed.

Lemma admit_and_record_below k w :
  burst clock cfg id t0 k w ->
  Z.of_nat k < requests_per_minute cfg ->
  result (admit_and_record clock cfg id) w = NotLimited
  /\ burst clock cfg id t0 (S k) (after (admit_and_record clock cfg id) w).
Proof.
  intros Hb Hlt. unfold result, after.
  rewrite admit_and_record_eq. unfold result, after.
  rewrite (is_rate_limited_in_burst k w Hb).
  destruct (Z.geb_spec (Z.of_nat k) (requests_per_minute cfg)); [lia|].
  simpl. split; [done|].
  destruct Hb as (q & Hr & Hlen & Ht0 & Hq).
  rewrite record_request_eq. simpl. rewrite record_of_put, put_put, Hr. simpl.
  exists (q ++ [clock (S (S (S (S (ticks w)))))]).
  split; [by rewrite record_of_put|].
  split; [rewrite length_app; simpl; lia|].
  split; [simpl; lia|].
  apply Forall_app. split; [done|].
  repeat constructor. intros j Hj. apply within_one_minute; lia.
Qed.

Lemma admit_and_record_at k w :
  burst clock cfg id t0 k w ->
  Z.of_nat k = requests_per_minute cfg ->
  result (admit_and_record clock cfg id) w
  = Limited minute (requests_per_minute cfg) (requests_per_minute cfg).
Proof.
  intros Hb Heq. unfold result.
  rewrite admit_and_record_eq. unfold result, after.
  rewrite (is_rate_limited_in_burst k w Hb).
  destruct (Z.geb_spec (Z.of_nat k) (requests_per_minute cfg)); [|lia].
  simpl. by rewrite Heq.
Qed.

Lemma burst_requests n : forall k w,
  burst clock cfg id t0 k w ->
  Z.of_nat (k + n) = requests_per_minute cfg ->
  result (admit_and_record_times clock cfg (S n) id) w
  = repeat NotLimited n
    ++ [Limited minute (requests_per_minute cfg) (requests_per_minute cfg)].
Proof.
  induction n as [|n IH]; intros k w Hb Hk; rewrite admit_and_record_times_S.
  - rewrite (admit_and_record_at k w Hb) by lia. done.
  - destruct (admit_and_record_below k w Hb) as [-> Hb']; [lia|].
    simpl. f_equal. apply (IH (S k)); [done | lia].
Qed.

End WithinOneMinute.

(** C1. For a client without recorded requests, ceilings with
    [0 <= minute <= hour, day] and windows with [minute <= hour, day] (as
    in the default 3/15/30 over 60/3600/86400), and calls whose clock
    reads all lie within one minute window of each other: of
    [ceiling + 1] admit-then-record calls the first [ceiling] answer not
    limited and the last answers limited by the minute window, with the
    minute ceiling as limit and as current count. *)
Theorem minute_ceiling_binds clock cfg id w :
  record_of w id = empty_record ->
  0 <= requests_per_minute cfg ->
  requests_per_minute cfg <= requests_per_hour cfg ->
  requests_per_minute cfg <= requests_per_day cfg ->
  minute_window cfg <= hour_window cfg ->
  minute_window cfg <= day_window cfg ->
  (forall i j, (ticks w <= i)%nat -> (ticks w <= j)%nat ->
     clock i - clock j <= minute_window cfg) ->
  result (admit_and_record_times clock cfg
            (S (Z.to_nat (requests_per_minute cfg))) id) w
  = repeat NotLimited (Z.to_nat (requests_per_minute cfg))
    ++ [Limited minute (requests_per_minute cfg) (requests_per_minute cfg)].
Proof.
  intros Hr H0 Hh Hd HWh HWd Hclk.
  apply (burst_requests clock cfg id (ticks w) Hh Hd HWh HWd Hclk _ 0%nat).
  - exists []. rewrite Hr. repeat split; [lia | constructor].
  - simpl. lia.
Qed.

Lemma minute_ceiling_binds_witness :
  result (admit_and_record_times (fun n => 1000 + Z.of_nat (Nat.min n 60))
            RATE_LIMIT_CONFIG 4 "9.9.9.9") fresh_world
  = [NotLimited; NotLimited; NotLimited; Limited minute 3 3].
Proof.
  apply (minute_ceiling_binds (fun n => 1000 + Z.of_nat (Nat.min n 60))
           RATE_LIMIT_CONFIG "9.9.9.9" fresh_world).
  - vm_compute. reflexivity.
  - vm_compute. discriminate.
  - vm_compute. discriminate.
  - vm_compute. discriminate.
  - vm_compute. discriminate.
  - vm_compute. discriminate.
  - intros i j _ _. simpl. lia.
Defined.

(** ** Worked examples *)

(** The first forwarded address, trimmed, is the client. *)
Example client_ip_from_forwarded_for :
  _get_client_ip (mkRequest (Some " 1.2.3.4 , 5.6.7.8") (Some "7.7.7.7") None "10.0.0.1")
  = "1.2.3.4".
Proof. reflexivity. Qed.

Example client_ip_falls_back :
  _get_client_ip (mkRequest (Some "") None None "10.0.0.1") = "10.0.0.1".
Proof. reflexivity. Qed.

(** With the shipped configuration: no user agent, a blacklisted one and a
    browser. *)
Example is_bot_without_user_agent :
  is_bot BOT_PROTECTION_CONFIG (mkRequest None None (Some "   ") "9.9.9.9") "9.9.9.9"
  = (true, Some "Missing required headers").
Proof. reflexivity. Qed.

Example is_bot_curl :
  is_bot BOT_PROTECTION_CONFIG (mkRequest None None (Some "curl/7.68.0") "9.9.9.9")
    "9.9.9.9"
  = (true, Some "Bot user agent detected: curl/7.68.0").
Proof. vm_compute. reflexivity. Qed.

Example is_bot_browser :
  is_bot BOT_PROTECTION_CONFIG
    (mkRequest None None
       (Some "Mozilla/5.0 (Windows NT 10.0; Win64; x64) AppleWebKit/537.36")
       "9.9.9.9")
    "9.9.9.9"
  = (false, None).
Proof. vm_compute. reflexivity. Qed.

(** A timestamp recorded at [t] no longer counts once the clock reads
    [t + window + 1]. *)
Example pruned_after_the_window :
  popleft_while_old (1000 + 60 + 1) 60 [1000; 1000; 1030] = [1030]
  /\ popleft_while_old (1000 + 60) 60 [1000; 1000; 1030] = [1000; 1000; 1030].
Proof. split; reflexivity. Qed.

(** Four requests of a browser through the decorator within one minute:
    the fourth is answered 429 for the minute window. *)
Example fourth_request_through_the_gate :
  let clock := fun n : nat => 1000 + Z.of_nat n in
  let request :=
    mkRequest None None (Some "Mozilla/5.0 (X11; Linux x86_64)") "9.9.9.9" in
  let gate :=
    rate_limit_and_protect clock RATE_LIMIT_CONFIG BOT_PROTECTION_CONFIG unit
      (fun _ => true) (fun _ _ => mret tt) request in
  let w3 := after gate (after gate (after gate fresh_world)) in
  result gate fresh_world
  = ResponseOf tt (Some (mkQuotaHeaders 3 15 30 (mkRemaining 2 14 29)))
  /\ result gate w3
     = Response429 "Rate limit exceeded" minute 3 3 60
         (Some (mkRateLimitHeaders 3 0 (1035 + 60) 60)).
Proof. vm_compute. split; reflexivity. Qed.

(** * Further properties of the limiter *)

(** ** Clients do not interfere *)

Lemma storage_put_ne id id' r n w :
  id ≠ id' -> storage (put id r n w) !! id' = storage w !! id'.
Proof. intros. unfold put; simpl. by rewrite lookup_insert_ne. Qed.

Lemma run_call_frame clock cfg c id w :
  id ≠ client_of c ->
  storage (after (run_call clock cfg c) w) !! id = storage w !! id.
Proof.
  intros Hne.
  destruct c as [ip wt|ip|ip|ip|ip|ip]; simpl in Hne; simpl run_call;
    rewrite ?after_then_ret.
  - unfold after. rewrite cleanup_eq. simpl. by rewrite lookup_insert_ne.
  - destruct (is_rate_limited_outcome clock cfg ip w) as (r' & k & -> & _).
    by apply storage_put_ne.
  - unfold after. rewrite record_request_eq. simpl. by rewrite lookup_insert_ne.
  - unfold after. rewrite get_remaining_requests_eq. cbv zeta. simpl.
    by rewrite lookup_insert_ne.
  - unfold after, reset_rate_limit.
    destruct (storage w !! ip); simpl; [|done]. by rewrite lookup_delete_ne.
  - unfold after at 1. rewrite admit_and_record_eq.
    destruct (is_rate_limited_outcome clock cfg ip w) as (r' & k & Hw & _).
    destruct (result (is_rate_limited clock cfg ip) w); simpl.
    + rewrite Hw. unfold after. rewrite record_request_eq. simpl.
      by rewrite !lookup_insert_ne.
    + rewrite Hw. by apply storage_put_ne.
Qed.

(** X1. Calls about other clients leave the stored record of a client as
    it was, present or absent: pruning, admission, recording, the quota
    query and the reset touch one key of the store only, so over any
    sequence of calls none of which is about [id] the record of [id] does
    not change. *)
Theorem calls_touch_one_client clock cfg cs id w :
  Forall (fun c => id ≠ client_of c) cs ->
  storage (after (run_calls clock cfg cs) w) !! id = storage w !! id.
Proof.
  intros Hcs. revert w. induction Hcs as [|c cs Hc _ IH]; intros w; [done|].
  rewrite after_run_calls_cons, IH. by apply run_call_frame.
Qed.

Lemma calls_touch_one_client_witness :
  let clock := fun n : nat => 1000 + Z.of_nat n in
  let w := put "1.1.1.1" (mkRecord [990] [990] [990]) 0 fresh_world in
  storage (after (run_calls clock RATE_LIMIT_CONFIG
                    [AdmitAndRecord "9.9.9.9"; RecordRequest "2.2.2.2";
                     ResetRateLimit "9.9.9.9"]) w)
    !! "1.1.1.1"
  = Some (mkRecord [990] [990] [990]).
Proof.
  intros clock w.
  rewrite (calls_touch_one_client clock RATE_LIMIT_CONFIG
             [AdmitAndRecord "9.9.9.9"; RecordRequest "2.2.2.2";
              ResetRateLimit "9.9.9.9"] "1.1.1.1" w).
  - vm_compute. reflexivity.
  - repeat constructor; vm_compute; discriminate.
Defined.

(** ** Reset *)

(** X2. [reset_rate_limit] is idempotent and local: a second reset of the
    same client returns False and changes nothing more, the first one
    leaves no record for the client, keeps every other client's record
    and does not read the clock. *)
Theorem reset_rate_limit_idempotent id w :
  let w' := after (reset_rate_limit id) w in
  reset_rate_limit id w' = (false, w')
  /\ storage w' !! id = None
  /\ ticks w' = ticks w
  /\ forall id', id' ≠ id -> storage w' !! id' = storage w !! id'.
Proof.
  intros w'. subst w'. unfold after, reset_rate_limit.
  destruct (storage w !! id) as [r|] eqn:E; simpl.
  - rewrite lookup_delete_eq. repeat split.
    intros id' Hne. by rewrite lookup_delete_ne.
  - rewrite E. done.
Qed.

Lemma reset_rate_limit_idempotent_witness :
  let w := put "9.9.9.9" (mkRecord [990] [990] [990]) 5
             (put "1.1.1.1" (mkRecord [7] [7] [7]) 0 fresh_world) in
  reset_rate_limit "9.9.9.9" (after (reset_rate_limit "9.9.9.9") w)
  = (false, after (reset_rate_limit "9.9.9.9") w)
  /\ storage (after (reset_rate_limit "9.9.9.9") w) !! "1.1.1.1"
     = Some (mkRecord [7] [7] [7]).
Proof.
  intros w.
  destruct (reset_rate_limit_idempotent "9.9.9.9" w) as (H1 & _ & _ & H2).
  split; [exact H1|]. rewrite H2; [vm_compute; reflexivity | vm_compute; discriminate].
Defined.
(** ** The answer of the admission check *)

(** X3. [is_rate_limited] names the first window, in the order minute,
    hour, day, whose deque, pruned at the clock value read for that
    window, holds at least its ceiling; it reports that ceiling and that
    count.  It answers not limited exactly when the three pruned counts
    are all below their ceilings.  The first clock read of the call is
    not used; the windows are pruned at the second, third and fourth. *)
Theorem is_rate_limited_names_first_full_window clock cfg id w :
  let r := record_of w id in
  let nm := len (popleft_while_old (clock (S (ticks w))) (minute_window cfg)
                   (minute_deque r)) in
  let nh := len (popleft_while_old (clock (S (S (ticks w)))) (hour_window cfg)
                   (hour_deque r)) in
  let nd := len (popleft_while_old (clock (S (S (S (ticks w))))) (day_window cfg)
                   (day_deque r)) in
  let answer := result (is_rate_limited clock cfg id) w in
  (answer = NotLimited <->
   nm < requests_per_minute cfg /\ nh < requests_per_hour cfg
   /\ nd < requests_per_day cfg)
  /\ (forall limit current, answer = Limited minute limit current <->
        requests_per_minute cfg <= nm
        /\ limit = requests_per_minute cfg /\ current = nm)
  /\ (forall limit current, answer = Limited hour limit current <->
        nm < requests_per_minute cfg /\ requests_per_hour cfg <= nh
        /\ limit = requests_per_hour cfg /\ current = nh)
  /\ (forall limit current, answer = Limited day limit current <->
        nm < requests_per_minute cfg /\ nh < requests_per_hour cfg
        /\ requests_per_day cfg <= nd
        /\ limit = requests_per_day cfg /\ current = nd).
Proof.
  intros r nm nh nd answer. subst answer. unfold result.
  rewrite is_rate_limited_eq. cbv zeta. fold r.
  destruct r as [qm qh qd].
  cbn [set_deque minute_deque hour_deque day_deque] in *.
  fold nm nh nd.
  destruct (Z.geb_spec nm (requests_per_minute cfg));
    [|destruct (Z.geb_spec nh (requests_per_hour cfg));
      [|destruct (Z.geb_spec nd (requests_per_day cfg))]];
    simpl; repeat split; intros; try discriminate; try lia;
    repeat match goal with
           | H : Limited _ _ _ = Limited _ _ _ |- _ => injection H as ? ?; subst
           | H : _ /\ _ |- _ => destruct H
           end; subst; try done; try lia.
Qed.

Lemma is_rate_limited_names_first_full_window_witness :
  let w := put "9.9.9.9" (mkRecord [990; 995] (repeat 990 15) (repeat 990 15))
             0 fresh_world in
  result (is_rate_limited (fun _ => 1000) RATE_LIMIT_CONFIG "9.9.9.9") w
  = Limited hour 15 15.
Proof.
  intros w.
  apply (proj1 (proj2 (proj2 (is_rate_limited_names_first_full_window
           (fun _ => 1000) RATE_LIMIT_CONFIG "9.9.9.9" w))) 15 15).
  vm_compute. repeat split; discriminate.
Defined.

(** ** Recovery of the quota *)

Lemma popleft_while_old_stale now W q :
  Forall (fun t => now - t > W) q -> popleft_while_old now W q = [].
Proof.
  induction 1 as [|t q Ht _ IH]; simpl; [done|].
  destruct (Z.gtb_spec (now - t) W); [done | lia].
Qed.

(** X4. Once every stored timestamp of a client is older than its window
    at every later clock read, the quota query reports the full ceilings
    and empties the three deques, and with positive ceilings the next
    admission check answers not limited. *)
Theorem quota_recovers_after_silence clock cfg id w :
  (forall wt,
      Forall (fun t => forall j, (ticks w <= j)%nat ->
                                 clock j - t > window_seconds_of cfg wt)
             (deque_of wt (record_of w id))) ->
  result (get_remaining_requests clock cfg id) w = ceilings cfg
  /\ record_of (after (get_remaining_requests clock cfg id) w) id = empty_record
  /\ (0 < requests_per_minute cfg -> 0 < requests_per_hour cfg ->
      0 < requests_per_day cfg ->
      result (is_rate_limited clock cfg id) w = NotLimited).
Proof.
  intros Hstale.
  assert (forall wt j, (ticks w <= j)%nat ->
            popleft_while_old (clock j) (window_seconds_of cfg wt)
              (deque_of wt (record_of w id)) = []) as Hgone.
  { intros wt j Hj. apply popleft_while_old_stale.
    eapply Forall_impl; [exact (Hstale wt)|]. simpl. intros t Ht. by apply Ht. }
  pose proof (fun j H => Hgone minute j H) as Hm.
  pose proof (fun j H => Hgone hour j H) as Hh.
  pose proof (fun j H => Hgone day j H) as Hd.
  simpl in Hm, Hh, Hd.
  split; [|split].
  - unfold result. rewrite get_remaining_requests_eq. cbv zeta. unfold pruned. simpl.
    rewrite Hm, Hh, Hd by lia. unfold ceilings, len. simpl. f_equal; lia.
  - unfold after. rewrite get_remaining_requests_eq. cbv zeta. simpl.
    rewrite record_of_put. unfold pruned. by rewrite Hm, Hh, Hd by lia.
  - intros H1 H2 H3. unfold result. rewrite is_rate_limited_eq. cbv zeta.
    destruct (record_of w id) as [qm qh qd].
    cbn [set_deque minute_deque hour_deque day_deque] in *.
    rewrite Hm, Hh, Hd by lia. unfold len. simpl. change (Z.of_nat 0) with 0.
    destruct (Z.geb_spec 0 (requests_per_minute cfg)); [lia|].
    destruct (Z.geb_spec 0 (requests_per_hour cfg)); [lia|].
    destruct (Z.geb_spec 0 (requests_per_day cfg)); [lia|]. done.
Qed.

Lemma quota_recovers_after_silence_witness :
  let clock := fun n : nat => 100000 + Z.of_nat n in
  let w := put "9.9.9.9" (mkRecord [10; 20; 30] [10; 20; 30] [10; 20; 30])
             0 fresh_world in
  result (get_remaining_requests clock RATE_LIMIT_CONFIG "9.9.9.9") w
  = mkRemaining 3 15 30
  /\ result (is_rate_limited clock RATE_LIMIT_CONFIG "9.9.9.9") w = NotLimited.
Proof.
  intros clock w.
  assert (forall wt,
      Forall (fun t => forall j, (ticks w <= j)%nat ->
                                 clock j - t > window_seconds_of RATE_LIMIT_CONFIG wt)
             (deque_of wt (record_of w "9.9.9.9"))) as Hstale.
  { intros wt. change (deque_of wt (record_of w "9.9.9.9")) with
      (deque_of wt (mkRecord [10; 20; 30] [10; 20; 30] [10; 20; 30])).
    destruct wt; simpl; repeat constructor; intros j _; unfold clock; lia. }
  destruct (quota_recovers_after_silence clock RATE_LIMIT_CONFIG "9.9.9.9" w Hstale)
    as (H1 & _ & H2).
  split; [exact H1|]. apply H2; reflexivity.
Defined.

(** ** The sliding-window guarantee *)

Lemma run_call_ticks clock cfg c w :
  (ticks w <= ticks (after (run_call clock cfg c) w))%nat.
Proof.
  destruct (run_call_touched clock cfg c w); simpl; lia.
Qed.

Lemma split_snoc (pre post H : list Z) (T T' : Z) :
  pre ++ T' :: post = H ++ [T] ->
  (post = [] /\ pre = H /\ T' = T)
  \/ exists post', post = post' ++ [T] /\ H = pre ++ T' :: post'.
Proof.
  destruct post as [|x post _] using rev_ind; intros Heq.
  - left. apply app_inj_tail in Heq as [-> ->]. done.
  - right. exists post.
    rewrite app_comm_cons, app_assoc in Heq.
    apply app_inj_tail in Heq as [<- ->]. done.
Qed.

Section SlidingWindow.

Variable clock : nat -> Z.
Variable cfg : RateLimitConfig.
Variable id : string.
Hypothesis clock_monotone : monotone clock.

Lemma popleft_while_old_drops j j' W q :
  (j <= j')%nat ->
  exists removed,
    q = removed ++ popleft_while_old (clock j) W q
    /\ Forall (fun t => clock j' - t > W) removed.
Proof.
  intros Hj. destruct (popleft_while_old_split (clock j) W q) as (removed & Hq & Hrem).
  exists removed. split; [done|].
  eapply Forall_impl; [exact Hrem|]. simpl. intros t Ht.
  pose proof (clock_monotone j j' Hj). lia.
Qed.

Lemma nothing_dropped (j : nat) W (q : list Z) :
  exists removed, q = removed ++ q /\ Forall (fun t => clock j - t > W) removed.
Proof. by exists []. Qed.

(** What [is_rate_limited] dropped was older than the window at the clock
    read that follows the call. *)
Lemma is_rate_limited_drops w :
  exists r' k,
    after (is_rate_limited clock cfg id) w = put id r' (ticks w + k) w
    /\ (forall wt, exists removed,
           deque_of wt (record_of w id) = removed ++ deque_of wt r'
           /\ Forall (fun t => clock (ticks w + k) - t > window_seconds_of cfg wt)
                removed)
    /\ (result (is_rate_limited clock cfg id) w = NotLimited ->
        forall wt, len (deque_of wt r') < requests_per cfg wt).
Proof.
  unfold after, result. rewrite is_rate_limited_eq. cbv zeta.
  destruct (record_of w id) as [qm qh qd].
  cbn [set_deque minute_deque hour_deque day_deque].
  destruct (Z.geb_spec (len (popleft_while_old (clock (S (ticks w)))
                               (minute_window cfg) qm)) (requests_per_minute cfg)).
  { eexists _, 2%nat. simpl. split; [by rewrite Nat.add_comm|]. split; [|done].
    intros []; simpl; [apply popleft_while_old_drops; lia | apply nothing_dropped ..]. }
  destruct (Z.geb_spec (len (popleft_while_old (clock (S (S (ticks w))))
                               (hour_window cfg) qh)) (requests_per_hour cfg)).
  { eexists _, 3%nat. simpl. split; [by rewrite Nat.add_comm|]. split; [|done].
    intros []; simpl;
      [apply popleft_while_old_drops; lia .. | apply nothing_dropped]. }
  destruct (Z.geb_spec (len (popleft_while_old (clock (S (S (S (ticks w)))))
                               (day_window cfg) qd)) (requests_per_day cfg)).
  { eexists _, 4%nat. simpl. split; [by rewrite Nat.add_comm|]. split; [|done].
    intros []; simpl; apply popleft_while_old_drops; lia. }
  eexists _, 4%nat. simpl. split; [by rewrite Nat.add_comm|]. split.
  - intros []; simpl; apply popleft_while_old_drops; lia.
  - intros _ []; simpl; lia.
Qed.

(** The footprint of a call on the deques of [id]: a prefix older than
    the window at the [jb]-th clock read is dropped from each deque, and
    the timestamp of an admitted request, read at [jb], is appended to
    what was kept, which was below its ceiling. *)
Lemma run_call_on_client c w :
  respects id c = true ->
  exists (kept : window_type -> list Z) (jb : nat),
    (ticks w <= jb)%nat /\ (jb <= ticks (after (run_call clock cfg c) w))%nat
    /\ (forall wt, exists removed,
           deque_of wt (record_of w id) = removed ++ kept wt
           /\ Forall (fun t => clock jb - t > window_seconds_of cfg wt) removed)
    /\ (forall wt,
           deque_of wt (record_of (after (run_call clock cfg c) w) id)
           = kept wt ++ admitted_by clock cfg id c w)
    /\ (admitted_by clock cfg id c w = []
        \/ (admitted_by clock cfg id c w = [clock jb]
            /\ forall wt, len (kept wt) < requests_per cfg wt)).
Proof.
  intros Hresp.
  destruct (decide (id = client_of c)) as [Hid|Hne].
  2: { (* a call about another client *)
    exists (fun wt => deque_of wt (record_of w id)), (ticks w).
    pose proof (run_call_ticks clock cfg c w).
    assert (admitted_by clock cfg id c w = []) as Hadm.
    { destruct c; simpl in *; try done.
      destruct (String.eqb_spec client_ip id) as [->|]; [done|done]. }
    rewrite Hadm. split; [lia|]. split; [lia|]. split; [|split; [|by left]].
    - intros wt. apply nothing_dropped.
    - intros wt. rewrite app_nil_r. unfold record_of.
      by rewrite run_call_frame. }
  destruct c as [ip wt0|ip|ip|ip|ip|ip]; simpl in Hid; subst ip;
    simpl in Hresp; rewrite ?String.eqb_refl in Hresp; try discriminate;
    simpl run_call; rewrite ?after_then_ret.
  - (* _cleanup_old_requests *)
    unfold after. rewrite cleanup_eq. simpl.
    exists (fun wt => deque_of wt
              (set_deque wt0
                 (popleft_while_old (clock (ticks w)) (window_seconds_of cfg wt0)
                    (deque_of wt0 (record_of w id)))
                 (record_of w id))), (S (ticks w)).
    split; [lia|]. split; [lia|]. split; [|split; [|by left]].
    + intros wt.
      destruct wt0, wt; simpl;
        first [apply nothing_dropped | apply popleft_while_old_drops; lia].
    + intros wt. by rewrite record_of_put, app_nil_r.
  - (* is_rate_limited *)
    destruct (is_rate_limited_drops w) as (r' & k & Hw & Hdrop & _).
    exists (fun wt => deque_of wt r'), (ticks w + k)%nat.
    rewrite Hw. simpl. split; [lia|]. split; [lia|]. split; [done|].
    split; [|by left]. intros wt. by rewrite record_of_put, app_nil_r.
  - (* get_remaining_requests *)
    unfold after. rewrite get_remaining_requests_eq. cbv zeta. simpl.
    exists (fun wt => deque_of wt
              (pruned cfg (clock (ticks w)) (clock (S (ticks w)))
                 (clock (S (S (ticks w)))) (record_of w id))),
           (S (S (S (ticks w)))).
    split; [lia|]. split; [lia|]. split; [|split; [|by left]].
    + intros []; simpl; apply popleft_while_old_drops; lia.
    + intros wt. by rewrite record_of_put, app_nil_r.
  - (* is_rate_limited, then record_request *)
    destruct (is_rate_limited_drops w) as (r' & k & Hw & Hdrop & Hbelow).
    unfold after at 1 2. rewrite admit_and_record_eq.
    unfold admitted_by. rewrite String.eqb_refl.
    destruct (result (is_rate_limited clock cfg id) w) eqn:Hres; simpl.
    + exists (fun wt => deque_of wt r'), (ticks w + k)%nat.
      rewrite Hw. unfold after. rewrite record_request_eq. simpl.
      split; [lia|]. split; [lia|]. split; [done|]. split.
      * intros wt. rewrite !record_of_put. by destruct wt.
      * right. split; [done|]. by apply Hbelow.
    + exists (fun wt' => deque_of wt' r'), (ticks w + k)%nat.
      rewrite Hw. simpl. split; [lia|]. split; [lia|]. split; [done|].
      split; [|by left]. intros wt'. by rewrite record_of_put, app_nil_r.
Qed.

Lemma filter_len_le (P : Z -> Prop) `{!forall t, Decision (P t)} (l : list Z) :
  len (filter P l) <= len l.
Proof. unfold len. pose proof (length_filter P l). lia. Qed.

Lemma log_consistent_step c w H :
  respects id c = true ->
  log_consistent clock cfg id w H ->
  log_consistent clock cfg id (after (run_call clock cfg c) w)
    (H ++ admitted_by clock cfg id c w).
Proof.
  intros Hresp (Hpast & Hstore & Hrate).
  destruct (run_call_on_client c w Hresp)
    as (kept & jb & Hjb & Hjb' & Hdrop & Hnew & Hadm).
  set (w' := after (run_call clock cfg c) w) in *.
  pose proof (clock_monotone (ticks w) jb Hjb) as Hc1.
  pose proof (clock_monotone jb (ticks w') Hjb') as Hc2.
  assert (Forall (fun t => t <= clock (ticks w')) (H ++ admitted_by clock cfg id c w))
    as Hpast'.
  { apply Forall_app. split.
    - eapply Forall_impl; [exact Hpast|]. simpl. intros; lia.
    - destruct Hadm as [-> | [-> _]]; by repeat constructor. }
  assert (forall wt, exists dropped,
             H = dropped ++ kept wt
             /\ Forall (fun t => clock jb - t > window_seconds_of cfg wt) dropped)
    as Hkept.
  { intros wt. destruct (Hstore wt) as (dropped & HH & Hd).
    destruct (Hdrop wt) as (removed & Hq & Hr).
    exists (dropped ++ removed). split.
    - by rewrite HH, Hq, app_assoc.
    - apply Forall_app. split; [|done].
      eapply Forall_impl; [exact Hd|]. simpl. intros; lia. }
  split; [done|]. split.
  - intros wt. destruct (Hkept wt) as (dropped & HH & Hd).
    exists dropped. rewrite Hnew. split; [by rewrite HH, app_assoc|].
    eapply Forall_impl; [exact Hd|]. simpl. intros; lia.
  - destruct Hadm as [-> | [-> Hbelow]]; [by rewrite app_nil_r|].
    intros pre T post wt Hsplit. symmetry in Hsplit.
    apply split_snoc in Hsplit as [(-> & -> & ->) | (post' & -> & HH)];
      [|by eapply Hrate].
    destruct (Hkept wt) as (dropped & HH & Hd). rewrite HH, filter_app.
    rewrite (filter_drops_all _ dropped).
    + simpl. pose proof (filter_len_le
        (fun t => clock jb - t <= window_seconds_of cfg wt) (kept wt)).
      specialize (Hbelow wt). lia.
    + eapply Forall_impl; [exact Hd|]. simpl. intros; lia.
Qed.

Lemma log_consistent_run cs : forall w H,
  forallb (respects id) cs = true ->
  log_consistent clock cfg id w H ->
  log_consistent clock cfg id (after (run_calls clock cfg cs) w)
    (H ++ admitted_times clock cfg id cs w).
Proof.
  induction cs as [|c cs IH]; intros w H Hresp Hlog.
  - simpl. by rewrite app_nil_r.
  - simpl in Hresp. apply andb_prop in Hresp as [Hc Hcs].
    rewrite after_run_calls_cons. cbn [admitted_times]. rewrite app_assoc.
    apply IH; [done|]. by apply log_consistent_step.
Qed.

End SlidingWindow.

(** X5. The rate-limiting guarantee.  Under a clock that never goes back,
    start from a store where the client has no timestamps and run any
    calls that neither record for the client without admission nor reset
    it.  Then every admitted request of the client had, for each window,
    fewer than that window's ceiling admitted predecessors within the
    window's duration before it, so that at most ceiling admitted
    requests ever fall in one window ending at an admitted request; and
    each stored deque is a suffix of the log of admitted timestamps. *)
Theorem sliding_window_guarantee clock cfg id cs w :
  monotone clock ->
  record_of w id = empty_record ->
  forallb (respects id) cs = true ->
  (forall pre T post wt,
      admitted_times clock cfg id cs w = pre ++ T :: post ->
      len (filter (fun t => T - t <= window_seconds_of cfg wt) pre)
      < requests_per cfg wt)
  /\ (forall wt,
        deque_of wt (record_of (after (run_calls clock cfg cs) w) id)
        `suffix_of` admitted_times clock cfg id cs w).
Proof.
  intros Hmono Hempty Hresp.
  assert (log_consistent clock cfg id w []) as Hinit.
  { split; [constructor|]. split.
    - intros wt. exists []. rewrite Hempty. split; [by destruct wt | constructor].
    - intros pre T post wt Hsplit. by destruct pre. }
  destruct (log_consistent_run clock cfg id Hmono cs w [] Hresp Hinit)
    as (_ & Hstore & Hrate).
  split; [exact Hrate|].
  intros wt. destruct (Hstore wt) as (dropped & HH & _). by exists dropped.
Qed.

Lemma sliding_window_guarantee_witness :
  let clock := fun n : nat => 1000 + 5 * Z.of_nat n in
  let cs := repeat (AdmitAndRecord "9.9.9.9") 6 ++ [ResetRateLimit "1.1.1.1"] in
  admitted_times clock RATE_LIMIT_CONFIG "9.9.9.9" cs fresh_world
  = [1020; 1045; 1070; 1105; 1130]
  /\ forall pre T post wt,
      admitted_times clock RATE_LIMIT_CONFIG "9.9.9.9" cs fresh_world
      = pre ++ T :: post ->
      len (filter (fun t => T - t <= window_seconds_of RATE_LIMIT_CONFIG wt) pre)
      < requests_per RATE_LIMIT_CONFIG wt.
Proof.
  intros clock cs. split; [vm_compute; reflexivity|].
  apply (sliding_window_guarantee clock RATE_LIMIT_CONFIG "9.9.9.9" cs fresh_world).
  - intros i j Hij. unfold clock. lia.
  - vm_compute. reflexivity.
  - vm_compute. reflexivity.
Defined.

(** * Further properties of the decorator *)

Lemma bind_eq {A B} (m : M A) (k : A -> M B) w :
  (x ← m; k x) w = k (result m w) (after m w).
Proof. unfold mbind, M_bind, result, after. by destruct (m w). Qed.

Lemma gate_not_bot clock rate_config bot_config (R : Type) (has_headers : R -> bool)
    (f : string -> Remaining -> M R) request w reason :
  is_bot bot_config request (_get_client_ip request) = (false, reason) ->
  rate_limit_and_protect clock rate_config bot_config R has_headers f request w
  = (limited ← is_rate_limited clock rate_config (_get_client_ip request);
     match limited with
     | Limited wt limit current =>
         let retry_after := window_seconds_of rate_config wt in
         if enable_headers rate_config
         then
           now ← time_time clock;
           mret (Response429 "Rate limit exceeded" wt limit current retry_after
                   (Some (mkRateLimitHeaders limit 0 (now + retry_after) retry_after)))
         else
           mret (Response429 "Rate limit exceeded" wt limit current retry_after None)
     | NotLimited =>
         record_request clock (_get_client_ip request);;
         rate_limit_info ← get_remaining_requests clock rate_config
                             (_get_client_ip request);
         if enable_headers rate_config
         then
           remaining ← get_remaining_requests clock rate_config
                         (_get_client_ip request);
           response ← f (_get_client_ip request) rate_limit_info;
           mret (ResponseOf response
                   (if has_headers response
                    then Some (mkQuotaHeaders (requests_per_minute rate_config)
                                 (requests_per_hour rate_config)
                                 (requests_per_day rate_config) remaining)
                    else None))
         else
           response ← f (_get_client_ip request) rate_limit_info;
           mret (ResponseOf response None)
     end) w.
Proof. intros Hbot. unfold rate_limit_and_protect. by rewrite Hbot. Qed.


Lemma gate_admits clock rate_config bot_config (R : Type) (has_headers : R -> bool)
    (f : string -> Remaining -> M R) request w reason :
  let client_ip := _get_client_ip request in
  let w1 := after (is_rate_limited clock rate_config client_ip) w in
  let w2 := after (record_request clock client_ip) w1 in
  let info := result (get_remaining_requests clock rate_config client_ip) w2 in
  let w3 := after (get_remaining_requests clock rate_config client_ip) w2 in
  let remaining := result (get_remaining_requests clock rate_config client_ip) w3 in
  let w4 := after (get_remaining_requests clock rate_config client_ip) w3 in
  let w' := if enable_headers rate_config then w4 else w3 in
  let response := result (f client_ip info) w' in
  is_bot bot_config request client_ip = (false, reason) ->
  result (is_rate_limited clock rate_config client_ip) w = NotLimited ->
  rate_limit_and_protect clock rate_config bot_config R has_headers f request w
  = (ResponseOf response
       (if enable_headers rate_config && has_headers response
        then Some (mkQuotaHeaders (requests_per_minute rate_config)
                     (requests_per_hour rate_config)
                     (requests_per_day rate_config) remaining)
        else None),
     after (f client_ip info) w').
Proof.
  intros client_ip w1 w2 info w3 remaining w4 w' response Hbot Hres.
  rewrite (gate_not_bot _ _ _ _ _ _ _ _ _ Hbot), bind_eq.
  fold client_ip. rewrite Hres. fold w1.
  rewrite bind_eq. fold w2. rewrite bind_eq. fold info w3.
  subst response w'.
  destruct (enable_headers rate_config); simpl andb.
  - rewrite bind_eq. fold remaining w4. rewrite bind_eq. done.
  - rewrite bind_eq. done.
Qed.

Lemma record_within_after_admission clock cfg id w :
  result (is_rate_limited clock cfg id) w = NotLimited ->
  record_within cfg
    (record_of (after (record_request clock id)
                  (after (is_rate_limited clock cfg id) w)) id).
Proof.
  intros Hres.
  destruct (is_rate_limited_outcome clock cfg id w) as (r' & k & -> & _ & Hout).
  rewrite Hres in Hout.
  unfold after. rewrite record_request_eq. simpl.
  rewrite !record_of_put. intros wt. specialize (Hout wt).
  destruct wt; simpl in *; unfold len in *; rewrite length_app; simpl; lia.
Qed.

Lemma get_remaining_requests_within clock cfg id w :
  record_within cfg (record_of w id) ->
  nonnegative (result (get_remaining_requests clock cfg id) w)
  /\ record_within cfg (record_of (after (get_remaining_requests clock cfg id) w) id).
Proof.
  intros Hr. unfold result, after. rewrite get_remaining_requests_eq. cbv zeta.
  simpl. rewrite record_of_put.
  assert (forall wt,
            len (deque_of wt (pruned cfg (clock (ticks w)) (clock (S (ticks w)))
                                (clock (S (S (ticks w)))) (record_of w id)))
            <= requests_per cfg wt) as Hle.
  { intros wt. pose proof (suffix_len _ _ (pruned_suffix cfg (clock (ticks w))
      (clock (S (ticks w))) (clock (S (S (ticks w)))) (record_of w id) wt)).
    specialize (Hr wt). lia. }
  split; [|exact Hle].
  pose proof (Hle minute). pose proof (Hle hour). pose proof (Hle day).
  unfold nonnegative. simpl in *. lia.
Qed.

(** X7. When the request is not a bot and [is_rate_limited] answers not
    limited, the handler is run once, with the client identity and a
    remaining quota of which no figure is negative, in a store where no
    deque of the client exceeds its ceiling; the quota headers, when
    attached, carry the configured ceilings and remaining figures that
    are not negative either.  This holds for every clock and every store
    the call starts from. *)
Theorem gate_hands_over_nonnegative_quota
    clock rate_config bot_config (R : Type) (has_headers : R -> bool)
    (f : string -> Remaining -> M R) request w reason :
  let client_ip := _get_client_ip request in
  is_bot bot_config request client_ip = (false, reason) ->
  result (is_rate_limited clock rate_config client_ip) w = NotLimited ->
  exists info w' headers,
    rate_limit_and_protect clock rate_config bot_config R has_headers f request w
    = (ResponseOf (result (f client_ip info) w') headers,
       after (f client_ip info) w')
    /\ nonnegative info
    /\ record_within rate_config (record_of w' client_ip)
    /\ (headers = None
        \/ exists remaining,
            headers = Some (mkQuotaHeaders (requests_per_minute rate_config)
                              (requests_per_hour rate_config)
                              (requests_per_day rate_config) remaining)
            /\ nonnegative remaining).
Proof.
  intros client_ip Hbot Hres.
  pose proof (gate_admits clock rate_config bot_config R has_headers f request w
                reason Hbot Hres) as Heq. cbv zeta in Heq. fold client_ip in Heq.
  pose proof (record_within_after_admission clock rate_config client_ip w Hres) as H2.
  destruct (get_remaining_requests_within clock rate_config client_ip _ H2)
    as [Hinfo H3].
  destruct (get_remaining_requests_within clock rate_config client_ip _ H3)
    as [Hrem H4].
  eexists _, _, _. split; [exact Heq|]. split; [exact Hinfo|]. split.
  - by destruct (enable_headers rate_config).
  - destruct (enable_headers rate_config && has_headers _); [right | by left].
    eexists. split; [reflexivity | exact Hrem].
Qed.

Lemma gate_hands_over_nonnegative_quota_witness :
  let clock := fun n : nat => 1000 + Z.of_nat n in
  let request :=
    mkRequest (Some "9.9.9.9, 10.0.0.1") None (Some "Mozilla/5.0") "10.0.0.1" in
  let w := put "9.9.9.9" (mkRecord [950; 960] [950; 960] [950; 960]) 0 fresh_world in
  result (rate_limit_and_protect clock RATE_LIMIT_CONFIG BOT_PROTECTION_CONFIG
            Remaining (fun _ => true) (fun _ info => mret info) request) w
  = ResponseOf (mkRemaining 0 12 27)
      (Some (mkQuotaHeaders 3 15 30 (mkRemaining 0 12 27)))
  /\ exists info, nonnegative info.
Proof.
  intros clock request w. split; [vm_compute; reflexivity|].
  destruct (gate_hands_over_nonnegative_quota clock RATE_LIMIT_CONFIG
              BOT_PROTECTION_CONFIG Remaining (fun _ => true)
              (fun _ info => mret info) request w None
              ltac:(vm_compute; reflexivity) ltac:(vm_compute; reflexivity))
    as (info & _ & _ & _ & Hinfo & _).
  by exists info.
Defined.

(** ** One request, one unit of quota *)

Lemma popleft_while_old_snoc_now now W q :
  0 <= W ->
  popleft_while_old now W (popleft_while_old now W q ++ [now])
  = popleft_while_old now W q ++ [now].
Proof.
  intros HW.
  destruct (popleft_while_old now W q) as [|t q'] eqn:E; simpl.
  - destruct (Z.gtb_spec (now - now) W); [lia | done].
  - apply popleft_while_old_head in E.
    destruct (Z.gtb_spec (now - t) W); [lia | done].
Qed.

Section StandingClock.

Variable clock : nat -> Z.
Variable cfg : RateLimitConfig.
Variable id : string.
Variable w : World.
Variable now : Z.
Hypothesis clock_stands : forall n, (ticks w <= n)%nat -> clock n = now.
Hypothesis minute_window_nonneg : 0 <= minute_window cfg.
Hypothesis hour_window_nonneg : 0 <= hour_window cfg.
Hypothesis day_window_nonneg : 0 <= day_window cfg.

Lemma remaining_at_standing_clock :
  result (get_remaining_requests clock cfg id) w
  = let r := pruned cfg now now now (record_of w id) in
    mkRemaining (requests_per_minute cfg - len (minute_deque r))
                (requests_per_hour cfg - len (hour_deque r))
                (requests_per_day cfg - len (day_deque r)).
Proof.
  unfold result. rewrite get_remaining_requests_eq. cbv zeta. simpl.
  by rewrite !clock_stands by lia.
Qed.

Lemma admission_at_standing_clock :
  result (is_rate_limited clock cfg id) w = NotLimited ->
  after (is_rate_limited clock cfg id) w
  = put id (pruned cfg now now now (record_of w id)) (S (S (S (S (ticks w))))) w.
Proof.
  unfold result, after. rewrite is_rate_limited_eq. cbv zeta.
  rewrite !clock_stands by lia.
  destruct (record_of w id) as [qm qh qd].
  cbn [set_deque minute_deque hour_deque day_deque]. unfold pruned. simpl.
  repeat match goal with |- context [if ?b then _ else _] => destruct b end;
    simpl; intros; try discriminate; done.
Qed.

(** After an admitted request the quota is one less in every window, and
    stays so however often it is read at that instant. *)
Lemma remaining_after_admitted_request k :
  let r := pruned cfg now now now (record_of w id) in
  let r' := mkRecord (minute_deque r ++ [now]) (hour_deque r ++ [now])
              (day_deque r ++ [now]) in
  get_remaining_requests clock cfg id (put id r' (ticks w + k) w)
  = (one_less (result (get_remaining_requests clock cfg id) w),
     put id r' (ticks w + (k + 3)) w).
Proof.
  intros r r'. rewrite get_remaining_requests_eq. cbv zeta. simpl.
  rewrite record_of_put, put_put, !clock_stands by lia.
  rewrite remaining_at_standing_clock. cbv zeta. fold r.
  unfold pruned. subst r'. simpl. subst r. unfold pruned. simpl.
  rewrite !popleft_while_old_snoc_now by done.
  unfold one_less, len. simpl. rewrite !length_app. simpl.
  f_equal; [f_equal; lia|]. f_equal. lia.
Qed.

Lemma admitted_and_recorded_at_standing_clock :
  result (is_rate_limited clock cfg id) w = NotLimited ->
  let r := pruned cfg now now now (record_of w id) in
  let r' := mkRecord (minute_deque r ++ [now]) (hour_deque r ++ [now])
              (day_deque r ++ [now]) in
  after (record_request clock id) (after (is_rate_limited clock cfg id) w)
  = put id r' (ticks w + 5) w.
Proof.
  intros Hres r r'. rewrite (admission_at_standing_clock Hres).
  unfold after. rewrite record_request_eq. simpl.
  rewrite record_of_put, put_put, clock_stands by lia.
  subst r' r. f_equal. lia.
Qed.

End StandingClock.

(** X8. At one instant (the clock stands still from the call on), with
    non-negative window lengths: when the request is not a bot and is
    admitted, the quota the handler receives, and the one in the quota
    headers, is the quota the client had before the request with one
    taken from every window; reading the quota again at that instant
    gives the same figures. *)
Theorem admitted_request_takes_one_unit
    clock rate_config bot_config (R : Type) (has_headers : R -> bool)
    (f : string -> Remaining -> M R) request w reason now :
  let client_ip := _get_client_ip request in
  let before := result (get_remaining_requests clock rate_config client_ip) w in
  (forall n, (ticks w <= n)%nat -> clock n = now) ->
  0 <= minute_window rate_config -> 0 <= hour_window rate_config ->
  0 <= day_window rate_config ->
  is_bot bot_config request client_ip = (false, reason) ->
  result (is_rate_limited clock rate_config client_ip) w = NotLimited ->
  exists w',
    rate_limit_and_protect clock rate_config bot_config R has_headers f request w
    = (ResponseOf (result (f client_ip (one_less before)) w')
         (if enable_headers rate_config
             && has_headers (result (f client_ip (one_less before)) w')
          then Some (mkQuotaHeaders (requests_per_minute rate_config)
                       (requests_per_hour rate_config)
                       (requests_per_day rate_config) (one_less before))
          else None),
       after (f client_ip (one_less before)) w')
    /\ (ticks w <= ticks w')%nat
    /\ result (get_remaining_requests clock rate_config client_ip) w'
       = one_less before.
Proof.
  intros client_ip before Hclk Hm Hh Hd Hbot Hres.
  pose proof (gate_admits clock rate_config bot_config R has_headers f request w
                reason Hbot Hres) as Heq. cbv zeta in Heq. fold client_ip in Heq.
  pose proof (admitted_and_recorded_at_standing_clock clock rate_config client_ip
                w now Hclk Hres) as E2. cbv zeta in E2.
  pose proof (remaining_after_admitted_request clock rate_config client_ip w now
                Hclk Hm Hh Hd) as Hgrr. cbv zeta in Hgrr. fold before in Hgrr.
  unfold result, after in Heq, E2 |- *.
  rewrite E2 in Heq. repeat (rewrite Hgrr in Heq; cbn [fst snd] in Heq).
  eexists. split; [exact Heq|].
  destruct (enable_headers rate_config); simpl; (split; [lia|]);
    by rewrite Hgrr.
Qed.

Lemma admitted_request_takes_one_unit_witness :
  let request := mkRequest None None (Some "Mozilla/5.0") "9.9.9.9" in
  let w := put "9.9.9.9" (mkRecord [990] [990] [990]) 0 fresh_world in
  result (get_remaining_requests (fun _ => 1000) RATE_LIMIT_CONFIG "9.9.9.9") w
  = mkRemaining 2 14 29
  /\ result (rate_limit_and_protect (fun _ => 1000) RATE_LIMIT_CONFIG
               BOT_PROTECTION_CONFIG Remaining (fun _ => true)
               (fun _ info => mret info) request) w
     = ResponseOf (mkRemaining 1 13 28)
         (Some (mkQuotaHeaders 3 15 30 (mkRemaining 1 13 28))).
Proof.
  intros request w. split; [vm_compute; reflexivity|].
  destruct (admitted_request_takes_one_unit (fun _ => 1000) RATE_LIMIT_CONFIG
              BOT_PROTECTION_CONFIG Remaining (fun _ => true)
              (fun _ info => mret info) request w None 1000
              (fun _ _ => eq_refl)
              ltac:(vm_compute; discriminate) ltac:(vm_compute; discriminate)
              ltac:(vm_compute; discriminate)
              ltac:(vm_compute; reflexivity) ltac:(vm_compute; reflexivity))
    as (w' & Heq & _).
  unfold result at 1. rewrite Heq. vm_compute. reflexivity.
Defined.

(** ** The status and reset endpoints *)

(** X9. The status endpoint is itself rate limited and recorded: at one
    instant, with non-negative window lengths, an admitted status request
    of a client that is not a bot reports the quota the client had before
    the request with one taken from every window, together with the
    limits 3, 15 and 30 whatever the configured ceilings are. *)
Theorem status_request_costs_one_unit clock rate_config bot_config request w
    reason now :
  let client_ip := _get_client_ip request in
  let before := result (get_remaining_requests clock rate_config client_ip) w in
  (forall n, (ticks w <= n)%nat -> clock n = now) ->
  0 <= minute_window rate_config -> 0 <= hour_window rate_config ->
  0 <= day_window rate_config ->
  is_bot bot_config request client_ip = (false, reason) ->
  result (is_rate_limited clock rate_config client_ip) w = NotLimited ->
  result (rate_limit_status clock rate_config bot_config request) w
  = ResponseOf (mkStatusBody client_ip (one_less before) 3 15 30)
      (if enable_headers rate_config
       then Some (mkQuotaHeaders (requests_per_minute rate_config)
                    (requests_per_hour rate_config)
                    (requests_per_day rate_config) (one_less before))
       else None).
Proof.
  intros client_ip before Hclk Hm Hh Hd Hbot Hres.
  pose proof (gate_admits clock rate_config bot_config StatusBody (fun _ => true)
                (rate_limit_status_handler clock rate_config) request w
                reason Hbot Hres) as Heq. cbv zeta in Heq. fold client_ip in Heq.
  pose proof (admitted_and_recorded_at_standing_clock clock rate_config client_ip
                w now Hclk Hres) as E2. cbv zeta in E2.
  pose proof (remaining_after_admitted_request clock rate_config client_ip w now
                Hclk Hm Hh Hd) as Hgrr. cbv zeta in Hgrr. fold before in Hgrr.
  unfold rate_limit_status, rate_limit_status_handler, get_rate_limit_info.
  unfold rate_limit_status_handler, get_rate_limit_info in Heq.
  unfold result, after in Heq, E2 |- *. rewrite Heq, E2. clear Heq E2.
  rewrite andb_true_r.
  destruct (enable_headers rate_config);
    repeat (rewrite ?bind_eq, ?Hgrr; unfold result, after; cbn [fst snd]);
    done.
Qed.

Lemma status_request_costs_one_unit_witness :
  let request := mkRequest None None (Some "Mozilla/5.0") "9.9.9.9" in
  let w := put "9.9.9.9" (mkRecord [990] [990] [990]) 0 fresh_world in
  result (rate_limit_status (fun _ => 1000) RATE_LIMIT_CONFIG
            BOT_PROTECTION_CONFIG request) w
  = ResponseOf (mkStatusBody "9.9.9.9" (mkRemaining 1 13 28) 3 15 30)
      (Some (mkQuotaHeaders 3 15 30 (mkRemaining 1 13 28))).
Proof.
  intros request w.
  rewrite (status_request_costs_one_unit (fun _ => 1000) RATE_LIMIT_CONFIG
             BOT_PROTECTION_CONFIG request w None 1000
             (fun _ _ => eq_refl)
             ltac:(vm_compute; discriminate) ltac:(vm_compute; discriminate)
             ltac:(vm_compute; discriminate)
             ltac:(vm_compute; reflexivity) ltac:(vm_compute; reflexivity)).
  vm_compute. reflexivity.
Defined.

Lemma is_rate_limited_unseen clock cfg id w :
  record_of w id = empty_record ->
  0 < requests_per_minute cfg -> 0 < requests_per_hour cfg ->
  0 < requests_per_day cfg ->
  result (is_rate_limited clock cfg id) w = NotLimited.
Proof.
  intros Hr H1 H2 H3. unfold result. rewrite is_rate_limited_eq. cbv zeta.
  rewrite Hr. simpl. unfold len. simpl. change (Z.of_nat 0) with 0.
  destruct (Z.geb_spec 0 (requests_per_minute cfg)); [lia|].
  destruct (Z.geb_spec 0 (requests_per_hour cfg)); [lia|].
  destruct (Z.geb_spec 0 (requests_per_day cfg)); [lia|]. done.
Qed.

(** X10. The reset endpoint, which no decorator protects, lifts the
    limit: whatever the store held for the address, after the call the
    address has its full quota and, with positive ceilings, its next
    admission check answers not limited; the call answers 200 when there
    was a record and 404 when there was none. *)
Theorem admin_reset_lifts_the_limit clock cfg ip_address w :
  let w' := after (admin_reset_rate_limit ip_address) w in
  result (get_remaining_requests clock cfg ip_address) w' = ceilings cfg
  /\ (0 < requests_per_minute cfg -> 0 < requests_per_hour cfg ->
      0 < requests_per_day cfg ->
      result (is_rate_limited clock cfg ip_address) w' = NotLimited)
  /\ snd (result (admin_reset_rate_limit ip_address) w)
     = (if bool_decide (is_Some (storage w !! ip_address)) then 200 else 404).
Proof.
  intros w'.
  assert (record_of w' ip_address = empty_record) as Hr.
  { subst w'. unfold admin_reset_rate_limit, after. rewrite bind_eq.
    unfold mret, M_ret. cbn [snd]. unfold after, reset_rate_limit, record_of.
    destruct (storage w !! ip_address) eqn:E; simpl.
    - by rewrite lookup_delete_eq.
    - by rewrite E. }
  split; [by apply get_remaining_requests_unseen|]. split.
  - intros H1 H2 H3. by apply is_rate_limited_unseen.
  - unfold admin_reset_rate_limit, result. rewrite bind_eq.
    unfold mret, M_ret, result, reset_rate_limit. cbn [fst].
    by destruct (storage w !! ip_address).
Qed.

Lemma admin_reset_lifts_the_limit_witness :
  let w := put "9.9.9.9" (mkRecord [998; 999; 1000] [998; 999; 1000]
                            [998; 999; 1000]) 0 fresh_world in
  result (is_rate_limited (fun _ => 1000) RATE_LIMIT_CONFIG "9.9.9.9") w
  = Limited minute 3 3
  /\ result (is_rate_limited (fun _ => 1000) RATE_LIMIT_CONFIG "9.9.9.9")
       (after (admin_reset_rate_limit "9.9.9.9") w)
     = NotLimited.
Proof.
  intros w. split; [vm_compute; reflexivity|].
  apply (proj1 (proj2 (admin_reset_lifts_the_limit (fun _ => 1000)
                         RATE_LIMIT_CONFIG "9.9.9.9" w))); reflexivity.
Defined.

(** * Further properties of the request handling *)

(** ** Strings *)

Lemma append_nil_l (s : string) : EmptyString +:+ s = s.
Proof. reflexivity. Qed.

Lemma append_cons (c : ascii) (s1 s2 : string) :
  String c s1 +:+ s2 = String c (s1 +:+ s2).
Proof. reflexivity. Qed.

Lemma append_nil_r (s : string) : s +:+ EmptyString = s.
Proof. induction s as [|c s IH]; [done|]. by rewrite append_cons, IH. Qed.

Lemma append_assoc (s1 s2 s3 : string) : (s1 +:+ s2) +:+ s3 = s1 +:+ s2 +:+ s3.
Proof.
  induction s1 as [|c s1 IH]; [done|]. by rewrite !append_cons, IH.
Qed.

Lemma prefix_spec (sub s : string) :
  String.prefix sub s = true <-> exists post, s = sub +:+ post.
Proof.
  revert s. induction sub as [|c sub IH]; intros s.
  - split; [intros _; by exists s|]. intros _. by destruct s.
  - destruct s as [|d s]; simpl.
    + split; [done|]. by intros [post Hpost].
    + destruct (ascii_dec c d) as [->|Hne].
      * rewrite IH. split; intros [post Hpost]; exists post.
        -- by rewrite append_cons, <- Hpost.
        -- rewrite append_cons in Hpost. by injection Hpost.
      * split; [done|]. intros [post Hpost].
        rewrite append_cons in Hpost. injection Hpost as ? _. congruence.
Qed.

(** [sub in s] holds exactly when [sub] occurs in [s]. *)
Lemma py_in_spec (sub s : string) :
  py_in sub s = true <-> exists pre post, s = pre +:+ sub +:+ post.
Proof.
  induction s as [|c s IH].
  - cbn [py_in]. rewrite orb_false_r, prefix_spec. split.
    + intros [post Hpost]. by exists EmptyString, post.
    + intros (pre & post & Heq). destruct pre; [by exists post|done].
  - cbn [py_in]. rewrite orb_true_iff, prefix_spec, IH. split.
    + intros [[post Hpost] | (pre & post & Heq)].
      * by exists EmptyString, post.
      * exists (String c pre), post. by rewrite append_cons, Heq.
    + intros (pre & post & Heq). destruct pre as [|d pre].
      * left. by exists post.
      * right. rewrite append_cons in Heq. injection Heq as _ Heq.
        by exists pre, post.
Qed.

Lemma py_in_extend (sub s pre post : string) :
  py_in sub s = true -> py_in sub (pre +:+ s +:+ post) = true.
Proof.
  rewrite !py_in_spec. intros (p & q & ->).
  exists (pre +:+ p), (q +:+ post). by rewrite !append_assoc.
Qed.

Lemma py_in_empty (s : string) : py_in EmptyString s = true.
Proof. by destruct s. Qed.

Lemma py_lower_append (s1 s2 : string) :
  py_lower (s1 +:+ s2) = py_lower s1 +:+ py_lower s2.
Proof.
  induction s1 as [|c s1 IH]; [done|].
  rewrite append_cons. simpl. by rewrite IH, append_cons.
Qed.

Lemma py_isspace_lower (c : ascii) : py_isspace (py_lower_char c) = py_isspace c.
Proof. destruct c as [[] [] [] [] [] [] [] []]; reflexivity. Qed.

Lemma all_space_lower (s : string) : all_space (py_lower s) = all_space s.
Proof.
  induction s as [|c s IH]; [done|]. simpl. by rewrite py_isspace_lower, IH.
Qed.

Lemma py_lstrip_empty (s : string) :
  py_lstrip s = EmptyString <-> all_space s = true.
Proof.
  induction s as [|c s IH]; simpl; [done|].
  destruct (py_isspace c); simpl; [done|]. split; discriminate.
Qed.

Lemma py_rstrip_empty (s : string) :
  py_rstrip s = EmptyString <-> all_space s = true.
Proof.
  induction s as [|c s IH]; simpl; [done|].
  destruct (py_rstrip s) as [|d r].
  - destruct (py_isspace c); simpl.
    + split; [intros _; by apply IH | done].
    + split; discriminate.
  - split; [discriminate|]. intros [_ H]%andb_prop.
    apply IH in H. discriminate.
Qed.

Lemma py_lstrip_head (s : string) :
  match py_lstrip s with
  | EmptyString => True
  | String c _ => py_isspace c = false
  end.
Proof.
  induction s as [|c s IH]; simpl; [done|].
  destruct (py_isspace c) eqn:E; [done|]. by rewrite E.
Qed.

(** [s.strip()] is empty exactly when [s] is empty or all whitespace. *)
Lemma py_strip_empty (s : string) :
  py_strip s = EmptyString <-> all_space s = true.
Proof.
  unfold py_strip. rewrite py_rstrip_empty. split.
  - intros H. apply py_lstrip_empty.
    pose proof (py_lstrip_head s) as Hh.
    destruct (py_lstrip s) as [|c t]; [done|].
    simpl in H. rewrite Hh in H. discriminate.
  - intros H. apply py_lstrip_empty in H. by rewrite H.
Qed.

Lemma py_lower_empty (s : string) : py_lower s = EmptyString -> s = EmptyString.
Proof. by destruct s. Qed.

(** ** The bot protector *)

Lemma has_required_headers_all_space cfg request :
  _has_required_headers cfg request
  = negb (require_user_agent cfg) || negb (all_space (_get_user_agent request)).
Proof.
  unfold _has_required_headers, _get_user_agent.
  destruct (require_user_agent cfg); simpl; [|done].
  destruct (header_user_agent request) as [u|]; simpl; [|done].
  rewrite all_space_lower. f_equal.
  destruct (String.eqb_spec (py_strip u) EmptyString) as [H|H].
  - symmetry. by apply py_strip_empty.
  - destruct (all_space u) eqn:E; [|done]. by apply py_strip_empty in E.
Qed.

(** X11. The verdict of [is_bot] depends on the request only through its
    lower-cased user agent (an absent header counting as the empty
    string): two requests whose user agents differ in letter case only,
    or in any other header or in the peer address, get the same verdict
    and reason for the same client identity. *)
Theorem is_bot_case_insensitive cfg request1 request2 client_ip :
  _get_user_agent request1 = _get_user_agent request2 ->
  is_bot cfg request1 client_ip = is_bot cfg request2 client_ip.
Proof.
  intros Hua. unfold is_bot.
  by rewrite !has_required_headers_all_space, Hua.
Qed.

Lemma is_bot_case_insensitive_witness :
  is_bot BOT_PROTECTION_CONFIG
    (mkRequest (Some "1.2.3.4") None (Some "Python-Requests/2.31") "10.0.0.1")
    "9.9.9.9"
  = is_bot BOT_PROTECTION_CONFIG
      (mkRequest None None (Some "PYTHON-requests/2.31") "9.9.9.9") "9.9.9.9".
Proof.
  apply (is_bot_case_insensitive BOT_PROTECTION_CONFIG
           (mkRequest (Some "1.2.3.4") None (Some "Python-Requests/2.31") "10.0.0.1")
           (mkRequest None None (Some "PYTHON-requests/2.31") "9.9.9.9") "9.9.9.9").
  reflexivity.
Defined.

(** X12. [is_bot] rejects with "Missing required headers" exactly when a
    user agent is required and the header is absent, empty or made of
    whitespace only; this rejection comes before the whitelist, the
    blacklist and the address list, whatever they hold. *)
Theorem blank_user_agent_is_rejected_first cfg request client_ip :
  is_bot cfg request client_ip = (true, Some "Missing required headers")
  <-> require_user_agent cfg = true
      /\ all_space (default EmptyString (header_user_agent request)) = true.
Proof.
  unfold is_bot. rewrite has_required_headers_all_space.
  unfold _get_user_agent. rewrite all_space_lower.
  destruct (require_user_agent cfg), (all_space _); simpl;
    try (split; [done | intros [? ?]; done]);
    try (split; [|intros [? ?]; discriminate]);
    repeat match goal with |- context [if ?b then _ else _] => destruct b end;
    intros [= ?]; discriminate.
Qed.

Lemma blank_user_agent_is_rejected_first_witness :
  is_bot BOT_PROTECTION_CONFIG
    (mkRequest None None (Some (String (ascii_of_nat 9) " ")) "9.9.9.9") "9.9.9.9"
  = (true, Some "Missing required headers").
Proof.
  apply (proj2 (blank_user_agent_is_rejected_first BOT_PROTECTION_CONFIG
                  (mkRequest None None (Some (String (ascii_of_nat 9) " ")) "9.9.9.9")
                  "9.9.9.9")).
  split; reflexivity.
Defined.

Lemma existsb_py_in_extend (patterns : list string) (ua pre post : string) :
  existsb (fun pattern => py_in (py_lower pattern) ua) patterns = true ->
  existsb (fun pattern => py_in (py_lower pattern) (pre +:+ ua +:+ post)) patterns
  = true.
Proof.
  rewrite !existsb_exists. intros (pattern & Hin & Hmatch).
  exists pattern. split; [done|]. by apply py_in_extend.
Qed.

(** X13. The substring rules are stable when text is put around a user
    agent: a user agent that matches a whitelist entry is never classed
    as a bot user agent however it is extended, and one that is classed as
    a bot user agent stays so under every extension in which no whitelist
    entry occurs.  An empty whitelist entry occurs in every user agent and
    so switches the blacklist off. *)
Theorem user_agent_rules_stable_under_extension cfg ua pre post :
  (existsb (fun allowed_agent => py_in (py_lower allowed_agent) ua)
           (allowed_user_agents cfg) = true ->
   _is_bot_user_agent cfg (pre +:+ ua +:+ post) = false)
  /\ (_is_bot_user_agent cfg ua = true ->
      existsb (fun allowed_agent =>
                 py_in (py_lower allowed_agent) (pre +:+ ua +:+ post))
              (allowed_user_agents cfg) = false ->
      _is_bot_user_agent cfg (pre +:+ ua +:+ post) = true)
  /\ (EmptyString ∈ allowed_user_agents cfg -> _is_bot_user_agent cfg ua = false).
Proof.
  unfold _is_bot_user_agent. split; [|split].
  - intros Hw. rewrite (existsb_py_in_extend _ _ _ _ Hw).
    by destruct (negb _).
  - destruct (negb (block_bot_user_agents cfg)); [done|].
    destruct (existsb _ (allowed_user_agents cfg)); [done|].
    destruct (existsb _ (bot_user_agent_patterns cfg)) eqn:Hb; [|done].
    intros _ ->. by rewrite (existsb_py_in_extend _ _ _ _ Hb).
  - intros Hin. destruct (negb _); [done|].
    assert (existsb (fun allowed_agent => py_in (py_lower allowed_agent) ua)
                    (allowed_user_agents cfg) = true) as ->; [|done].
    apply existsb_exists. exists EmptyString. split.
    + by apply list_elem_of_In.
    + apply py_in_empty.
Qed.

Lemma user_agent_rules_stable_under_extension_witness :
  _is_bot_user_agent BOT_PROTECTION_CONFIG "curl/7.68.0" = true
  /\ _is_bot_user_agent BOT_PROTECTION_CONFIG
       ("mozilla/5.0 " +:+ "curl/7.68.0" +:+ " (x11)") = true
  /\ _is_bot_user_agent BOT_PROTECTION_CONFIG
       ("" +:+ "instafit-mobile" +:+ " curl/7.68.0") = false.
Proof.
  split; [vm_compute; reflexivity|]. split.
  - apply (proj1 (proj2 (user_agent_rules_stable_under_extension
             BOT_PROTECTION_CONFIG "curl/7.68.0" "mozilla/5.0 " " (x11)")));
      vm_compute; reflexivity.
  - apply (proj1 (user_agent_rules_stable_under_extension
             BOT_PROTECTION_CONFIG "instafit-mobile" "" " curl/7.68.0")).
    vm_compute. reflexivity.
Defined.

(** ** The client identity *)

Lemma py_in_comma_cons (c : ascii) (s : string) :
  py_in "," (String c s) = Ascii.eqb c "," || py_in "," s.
Proof.
  cbn [py_in String.prefix]. f_equal.
  destruct (ascii_dec "," c) as [<-|Hne]; [by destruct s|].
  symmetry. apply Ascii.eqb_neq. congruence.
Qed.

Lemma py_split_comma_first_no_comma (s : string) :
  py_in "," (py_split_comma_first s) = false.
Proof.
  induction s as [|c s IH]; [done|]. cbn [py_split_comma_first].
  destruct (Ascii.eqb c ",") eqn:E; [done|].
  by rewrite py_in_comma_cons, E, IH.
Qed.

Lemma py_split_comma_first_clean (v rest : string) :
  py_in "," v = false ->
  py_split_comma_first v = v
  /\ py_split_comma_first (v +:+ "," +:+ rest) = v.
Proof.
  induction v as [|c v IH]; [done|].
  rewrite py_in_comma_cons. intros [Hc Hv]%orb_false_elim.
  destruct (IH Hv) as [IH1 IH2].
  rewrite append_cons. cbn [py_split_comma_first]. by rewrite Hc, IH1, IH2.
Qed.

Lemma py_lstrip_no_comma (s : string) :
  py_in "," s = false -> py_in "," (py_lstrip s) = false.
Proof.
  induction s as [|c s IH]; [done|]. cbn [py_lstrip].
  destruct (py_isspace c); [|done].
  rewrite py_in_comma_cons. intros [_ Hs]%orb_false_elim. by apply IH.
Qed.

Lemma py_rstrip_no_comma (s : string) :
  py_in "," s = false -> py_in "," (py_rstrip s) = false.
Proof.
  induction s as [|c s IH]; [done|].
  rewrite py_in_comma_cons. intros [Hc Hs]%orb_false_elim. cbn [py_rstrip].
  specialize (IH Hs). destruct (py_rstrip s) as [|d r].
  - destruct (py_isspace c); [done|]. by rewrite py_in_comma_cons, Hc.
  - by rewrite py_in_comma_cons, Hc, IH.
Qed.

Lemma py_rstrip_idem (s : string) : py_rstrip (py_rstrip s) = py_rstrip s.
Proof.
  induction s as [|c s IH]; [done|]. cbn [py_rstrip].
  destruct (py_rstrip s) as [|d r] eqn:E.
  - destruct (py_isspace c) eqn:Ec; [done|]. cbn [py_rstrip]. by rewrite Ec.
  - change (py_rstrip (String c (String d r)))
      with (match py_rstrip (String d r) with
            | EmptyString => if py_isspace c then EmptyString else String c EmptyString
            | String d' r' => String c (String d' r')
            end).
    by rewrite IH.
Qed.

Lemma py_lstrip_of_rstrip (t : string) :
  match t with EmptyString => True | String c _ => py_isspace c = false end ->
  py_lstrip (py_rstrip t) = py_rstrip t.
Proof.
  destruct t as [|c t]; [done|]. intros Hc. cbn [py_rstrip].
  destruct (py_rstrip t); rewrite ?Hc; cbn [py_lstrip]; by rewrite Hc.
Qed.

(** Stripping twice is stripping once. *)
Lemma py_strip_idem (s : string) : py_strip (py_strip s) = py_strip s.
Proof.
  unfold py_strip.
  rewrite (py_lstrip_of_rstrip (py_lstrip s) (py_lstrip_head s)).
  apply py_rstrip_idem.
Qed.

Lemma get_client_ip_forwarded request v :
  header_x_forwarded_for request = Some v -> v ≠ EmptyString ->
  _get_client_ip request = py_strip (py_split_comma_first v).
Proof.
  intros Hv Hne. unfold _get_client_ip. rewrite Hv. by destruct v.
Qed.

(** X14. When the forwarded-for header is present and not empty it alone
    decides the identity, whatever the real-IP header and the peer
    address are: the identity is the text before the first comma,
    stripped; it holds no comma, and stripping it again changes nothing
    (it may be empty). *)
Theorem forwarded_identity_normal_form request v :
  header_x_forwarded_for request = Some v -> v ≠ EmptyString ->
  _get_client_ip request = py_strip (py_split_comma_first v)
  /\ py_in "," (_get_client_ip request) = false
  /\ py_strip (_get_client_ip request) = _get_client_ip request.
Proof.
  intros Hv Hne. rewrite (get_client_ip_forwarded request v Hv Hne).
  split; [done|]. split.
  - apply py_rstrip_no_comma, py_lstrip_no_comma, py_split_comma_first_no_comma.
  - apply py_strip_idem.
Qed.

Lemma forwarded_identity_normal_form_witness :
  _get_client_ip (mkRequest (Some "  7.7.7.7 , 10.0.0.1, 10.0.0.2") (Some "8.8.8.8")
                    None "10.0.0.3")
  = "7.7.7.7"
  /\ _get_client_ip (mkRequest (Some " ,10.0.0.1") (Some "8.8.8.8") None "10.0.0.3")
     = "".
Proof.
  split.
  - rewrite (proj1 (forwarded_identity_normal_form
                      (mkRequest (Some "  7.7.7.7 , 10.0.0.1, 10.0.0.2")
                         (Some "8.8.8.8") None "10.0.0.3")
                      "  7.7.7.7 , 10.0.0.1, 10.0.0.2" eq_refl
                      ltac:(discriminate))).
    reflexivity.
  - rewrite (proj1 (forwarded_identity_normal_form
                      (mkRequest (Some " ,10.0.0.1") (Some "8.8.8.8") None "10.0.0.3")
                      " ,10.0.0.1" eq_refl ltac:(discriminate))).
    reflexivity.
Defined.

(** X15. The sender chooses its identity: for every non-empty text
    without comma and without whitespace at its ends, a request carrying
    it as forwarded-for header, alone or followed by a comma and anything
    else, is given exactly that identity, whatever the peer address and
    the other headers are. *)
Theorem forwarded_header_chooses_identity v rest real_ip user_agent peer :
  v ≠ EmptyString -> py_in "," v = false -> py_strip v = v ->
  _get_client_ip (mkRequest (Some v) real_ip user_agent peer) = v
  /\ _get_client_ip (mkRequest (Some (v +:+ "," +:+ rest)) real_ip user_agent peer)
     = v.
Proof.
  intros Hne Hcomma Hstrip.
  destruct (py_split_comma_first_clean v rest Hcomma) as [H1 H2]. split.
  - rewrite (get_client_ip_forwarded (mkRequest (Some v) real_ip user_agent peer)
               v eq_refl Hne).
    by rewrite H1, Hstrip.
  - rewrite (get_client_ip_forwarded
               (mkRequest (Some (v +:+ "," +:+ rest)) real_ip user_agent peer)
               (v +:+ "," +:+ rest) eq_refl).
    + by rewrite H2, Hstrip.
    + by destruct v.
Qed.

Lemma forwarded_header_chooses_identity_witness :
  _get_client_ip (mkRequest (Some ("203.0.113.9" +:+ "," +:+ " 10.0.0.1"))
                    None (Some "Mozilla/5.0") "198.51.100.4")
  = "203.0.113.9".
Proof.
  apply (proj2 (forwarded_header_chooses_identity "203.0.113.9" " 10.0.0.1"
                  None (Some "Mozilla/5.0") "198.51.100.4"
                  ltac:(discriminate) eq_refl eq_refl)).
Defined.

(** X16. A fresh identity is always admitted: if the forwarded-for header
    names an identity (non-empty, no comma, no whitespace at its ends) for
    which the store holds no record, the ceilings are positive and the
    bot protector lets the request pass, then the decorated function runs
    the handler, whatever the store holds for every other client and
    whatever the peer address is. *)
Theorem fresh_forwarded_identity_is_admitted
    clock rate_config bot_config (R : Type) (has_headers : R -> bool)
    (f : string -> Remaining -> M R) v real_ip user_agent peer w reason :
  let request := mkRequest (Some v) real_ip user_agent peer in
  v ≠ EmptyString -> py_in "," v = false -> py_strip v = v ->
  storage w !! v = None ->
  0 < requests_per_minute rate_config -> 0 < requests_per_hour rate_config ->
  0 < requests_per_day rate_config ->
  is_bot bot_config request v = (false, reason) ->
  exists response headers,
    result (rate_limit_and_protect clock rate_config bot_config R has_headers f
              request) w
    = ResponseOf response headers.
Proof.
  intros request Hne Hcomma Hstrip Hfresh Hm Hh Hd Hbot.
  assert (_get_client_ip request = v) as Hip.
  { rewrite (get_client_ip_forwarded request v eq_refl Hne).
    by rewrite (proj1 (py_split_comma_first_clean v EmptyString Hcomma)). }
  assert (result (is_rate_limited clock rate_config (_get_client_ip request)) w
          = NotLimited) as Hres.
  { rewrite Hip. apply is_rate_limited_unseen; try done.
    unfold record_of. by rewrite Hfresh. }
  rewrite <- Hip in Hbot.
  pose proof (gate_admits clock rate_config bot_config R has_headers f request w
                reason Hbot Hres) as Heq. cbv zeta in Heq.
  unfold result at 1. rewrite Heq. cbn [fst]. eauto.
Qed.

Lemma fresh_forwarded_identity_is_admitted_witness :
  let w := put "198.51.100.4" (mkRecord [998; 999; 1000] [998; 999; 1000]
                                 [998; 999; 1000]) 0 fresh_world in
  exists response headers,
    result (rate_limit_and_protect (fun _ => 1000) RATE_LIMIT_CONFIG
              BOT_PROTECTION_CONFIG unit (fun _ => true) (fun _ _ => mret tt)
              (mkRequest (Some "203.0.113.9") None (Some "Mozilla/5.0")
                 "198.51.100.4")) w
    = ResponseOf response headers.
Proof.
  intros w.
  apply (fresh_forwarded_identity_is_admitted (fun _ => 1000) RATE_LIMIT_CONFIG
           BOT_PROTECTION_CONFIG unit (fun _ => true) (fun _ _ => mret tt)
           "203.0.113.9" None (Some "Mozilla/5.0") "198.51.100.4" w None);
    first [discriminate | reflexivity | (vm_compute; reflexivity)].
Defined.

(** ** API keys *)

Lemma py_remove_bearer_prefix (h : string) :
  py_remove "Bearer " ("Bearer " +:+ h) = py_remove "Bearer " h.
Proof. destruct h; reflexivity. Qed.

Lemma require_api_key_nonempty env_api_key (R : Type) (f : string -> M R) h w :
  h ≠ EmptyString ->
  require_api_key env_api_key R f (Some h) w
  = match API_KEYS env_api_key !! Some (py_remove "Bearer " h) with
    | None => (Response401 "Invalid API key", w)
    | Some user => (Passed (result (f user) w), after (f user) w)
    end.
Proof.
  intros Hh. destruct h as [|c h]; [done|].
  unfold require_api_key. cbv zeta.
  destruct (API_KEYS env_api_key !! _); [|done]. by rewrite bind_eq.
Qed.

(** X17. The "Bearer " prefix of the authorization header is optional:
    a non-empty header and the same header behind "Bearer " are treated
    alike.  The key "test-key" is accepted as user "test-user" whatever
    the environment variable API_KEY holds, with or without the prefix;
    and when API_KEY is not set it is the only key accepted. *)
Theorem api_key_prefix_and_test_key env_api_key (R : Type) (f : string -> M R) w :
  (forall h, h ≠ EmptyString ->
     require_api_key env_api_key R f (Some ("Bearer " +:+ h)) w
     = require_api_key env_api_key R f (Some h) w)
  /\ require_api_key env_api_key R f (Some "test-key") w
     = (Passed (result (f "test-user") w), after (f "test-user") w)
  /\ require_api_key env_api_key R f (Some "Bearer test-key") w
     = (Passed (result (f "test-user") w), after (f "test-user") w)
  /\ (env_api_key = None ->
      forall h, h ≠ EmptyString -> py_remove "Bearer " h ≠ "test-key" ->
        require_api_key env_api_key R f (Some h) w
        = (Response401 "Invalid API key", w)).
Proof.
  assert (require_api_key env_api_key R f (Some "test-key") w
          = (Passed (result (f "test-user") w), after (f "test-user") w)) as Htest.
  { unfold require_api_key, API_KEYS.
    change (py_remove "Bearer " "test-key") with "test-key".
    rewrite lookup_insert_eq, bind_eq. done. }
  assert (forall h, h ≠ EmptyString ->
     require_api_key env_api_key R f (Some ("Bearer " +:+ h)) w
     = require_api_key env_api_key R f (Some h) w) as Hprefix.
  { intros h Hh.
    rewrite !require_api_key_nonempty by (done || by destruct h).
    by rewrite py_remove_bearer_prefix. }
  split; [exact Hprefix|]. split; [exact Htest|]. split.
  - rewrite <- Htest. apply (Hprefix "test-key"). discriminate.
  - intros -> h Hh Hkey. destruct h as [|c h]; [done|].
    unfold require_api_key, API_KEYS. cbv zeta.
    rewrite lookup_insert_ne by congruence.
    rewrite lookup_insert_ne by discriminate. by rewrite lookup_empty.
Qed.

Lemma api_key_prefix_and_test_key_witness :
  require_api_key None string (fun user => mret user) (Some "Bearer guess")
    fresh_world
  = (Response401 "Invalid API key", fresh_world)
  /\ require_api_key (Some "secret") string (fun user => mret user)
       (Some "Bearer Bearer secret") fresh_world
     = require_api_key (Some "secret") string (fun user => mret user)
         (Some "Bearer secret") fresh_world.
Proof.
  split.
  - apply (proj2 (proj2 (proj2 (api_key_prefix_and_test_key None string
             (fun user => mret user) fresh_world))) eq_refl);
      [discriminate | vm_compute; discriminate].
  - apply (proj1 (api_key_prefix_and_test_key (Some "secret") string
             (fun user => mret user) fresh_world) "Bearer secret").
    discriminate.
Defined.

(** X18. On [/instafit] the API key is checked before the gate: when the
    authorization header is absent or empty, or the key left after
    removing "Bearer " is not a key of [API_KEYS], the route answers 401
    and the world is exactly as before, so the request consumes no quota,
    is not classed by the bot protector and does not reach the handler;
    with an accepted key the route is the decorated handler run for that
    key's user. *)
Theorem instafit_checks_key_before_gate
    clock rate_config bot_config env_api_key (R : Type) (has_headers : R -> bool)
    (perform_try_on : string -> string -> Remaining -> M R) request authorization w :
  let key := py_remove "Bearer " (default EmptyString authorization) in
  let route := instafit_route clock rate_config bot_config env_api_key R
                 has_headers perform_try_on request authorization in
  (default EmptyString authorization = EmptyString ->
   route w = (Response401 "API key required", w))
  /\ (default EmptyString authorization ≠ EmptyString ->
      API_KEYS env_api_key !! Some key = None ->
      route w = (Response401 "Invalid API key", w))
  /\ (forall user,
        default EmptyString authorization ≠ EmptyString ->
        API_KEYS env_api_key !! Some key = Some user ->
        let gate := rate_limit_and_protect clock rate_config bot_config R
                      has_headers (perform_try_on user) request in
        route w = (Passed (result gate w), after gate w)).
Proof.
  intros key route. subst key route.
  unfold instafit_route, require_api_key.
  destruct authorization as [[|c h]|]; simpl default; cbv zeta.
  - split; [done|]. split; [done|]. intros user H. done.
  - split; [done|]. split.
    + intros _ ->. done.
    + intros user _ ->. by rewrite bind_eq.
  - split; [done|]. split; [done|]. intros user H. done.
Qed.

Lemma instafit_checks_key_before_gate_witness :
  let w := put "9.9.9.9" (mkRecord [990] [990] [990]) 3 fresh_world in
  instafit_route (fun _ => 1000) RATE_LIMIT_CONFIG BOT_PROTECTION_CONFIG
    (Some "secret") unit (fun _ => true) (fun _ _ _ => mret tt)
    (mkRequest None None (Some "curl/7.68.0") "9.9.9.9") (Some "Bearer wrong") w
  = (Response401 "Invalid API key", w).
Proof.
  intros w.
  apply (proj1 (proj2 (instafit_checks_key_before_gate (fun _ => 1000)
           RATE_LIMIT_CONFIG BOT_PROTECTION_CONFIG (Some "secret") unit
           (fun _ => true) (fun _ _ _ => mret tt)
           (mkRequest None None (Some "curl/7.68.0") "9.9.9.9")
           (Some "Bearer wrong") w)));
    [discriminate | vm_compute; reflexivity].
Defined.

(** * Further properties of the store *)

(** ** Records are kept *)

Lemma run_call_put clock cfg c w :
  (forall ip, c ≠ ResetRateLimit ip) ->
  exists r' n, after (run_call clock cfg c) w = put (client_of c) r' n w.
Proof.
  intros Hc.
  destruct c as [ip wt|ip|ip|ip|ip|ip]; simpl run_call; simpl client_of;
    rewrite ?after_then_ret.
  - unfold after. rewrite cleanup_eq. simpl. eauto.
  - destruct (is_rate_limited_outcome clock cfg ip w) as (r' & k & -> & _). eauto.
  - unfold after. rewrite record_request_eq. simpl. eauto.
  - unfold after. rewrite get_remaining_requests_eq. cbv zeta. simpl. eauto.
  - by destruct (Hc ip).
  - unfold after at 1. rewrite admit_and_record_eq.
    destruct (is_rate_limited_outcome clock cfg ip w) as (r' & k & Hw & _).
    destruct (result (is_rate_limited clock cfg ip) w); simpl.
    + rewrite Hw. unfold after. rewrite record_request_eq. simpl.
      rewrite put_put. eauto.
    + rewrite Hw. eauto.
Qed.

(** X19. Only a reset removes a record.  After any other call every
    client that had a record still has one, and the client of the call
    has one too, even if all its timestamps were pruned away or none was
    ever recorded: emptied records are not collected. *)
Theorem records_are_kept clock cfg c w :
  (forall ip, c ≠ ResetRateLimit ip) ->
  let w' := after (run_call clock cfg c) w in
  (forall id, is_Some (storage w !! id) -> is_Some (storage w' !! id))
  /\ is_Some (storage w' !! client_of c).
Proof.
  intros Hc w'. subst w'.
  destruct (run_call_put clock cfg c w Hc) as (r' & n & ->). simpl. split.
  - intros id Hid. destruct (decide (client_of c = id)) as [->|Hne].
    + rewrite lookup_insert_eq. eauto.
    + by rewrite lookup_insert_ne.
  - rewrite lookup_insert_eq. eauto.
Qed.

Lemma records_are_kept_witness :
  let clock := fun n : nat => 100000 + Z.of_nat n in
  let w := put "9.9.9.9" (mkRecord [10] [10] [10]) 0 fresh_world in
  storage (after (run_call clock RATE_LIMIT_CONFIG (GetRemainingRequests "9.9.9.9")) w)
    !! "9.9.9.9"
  = Some empty_record
  /\ is_Some (storage (after (run_call clock RATE_LIMIT_CONFIG
                                (IsRateLimited "1.1.1.1")) w) !! "9.9.9.9").
Proof.
  intros clock w. split; [vm_compute; reflexivity|].
  apply (proj1 (records_are_kept clock RATE_LIMIT_CONFIG (IsRateLimited "1.1.1.1") w
                  ltac:(discriminate))).
  vm_compute. eauto.
Defined.

(** ** Attempts leave no trace *)

Lemma popleft_while_old_later now t' W q :
  now <= t' ->
  popleft_while_old t' W (popleft_while_old now W q) = popleft_while_old t' W q.
Proof.
  intros Hle. induction q as [|h q IH]; [done|]. cbn [popleft_while_old].
  destruct (Z.gtb_spec (now - h) W) as [Hold|Hkeep]; [|done].
  rewrite IH. destruct (Z.gtb_spec (t' - h) W); [done | lia].
Qed.

Lemma is_rate_limited_at_standing_clock clock cfg id w now :
  (forall n, (ticks w <= n)%nat -> clock n = now) ->
  result (is_rate_limited clock cfg id) w
  = answer_for cfg (pruned cfg now now now (record_of w id)).
Proof.
  intros Hclk. unfold result. rewrite is_rate_limited_eq. cbv zeta.
  rewrite !Hclk by lia.
  destruct (record_of w id) as [qm qh qd].
  cbn [set_deque minute_deque hour_deque day_deque]. unfold answer_for, pruned.
  cbn [minute_deque hour_deque day_deque].
  by repeat match goal with |- context [if ?b then _ else _] => destruct b end.
Qed.

Lemma is_rate_limited_prunes_at_reads clock cfg id w :
  exists r' k,
    after (is_rate_limited clock cfg id) w = put id r' (ticks w + k) w
    /\ forall wt,
        deque_of wt r' = deque_of wt (record_of w id)
        \/ exists i, (ticks w <= i)%nat
               /\ deque_of wt r'
                  = popleft_while_old (clock i) (window_seconds_of cfg wt)
                      (deque_of wt (record_of w id)).
Proof.
  unfold after. rewrite is_rate_limited_eq. cbv zeta.
  destruct (record_of w id) as [qm qh qd].
  cbn [set_deque minute_deque hour_deque day_deque].
  repeat match goal with |- context [if ?b then _ else _] => destruct b end;
    simpl.
  - eexists _, 2%nat. split; [by rewrite Nat.add_comm|].
    intros []; simpl; [right; exists (S (ticks w)); split; [lia | done] | by left ..].
  - eexists _, 3%nat. split; [by rewrite Nat.add_comm|].
    intros []; simpl;
      [right; exists (S (ticks w)); split; [lia | done]
      |right; exists (S (S (ticks w))); split; [lia | done]
      |by left].
  - eexists _, 4%nat. split; [by rewrite Nat.add_comm|].
    intros []; simpl;
      [right; exists (S (ticks w)); split; [lia | done]
      |right; exists (S (S (ticks w))); split; [lia | done]
      |right; exists (S (S (S (ticks w)))); split; [lia | done]].
  - eexists _, 4%nat. split; [by rewrite Nat.add_comm|].
    intros []; simpl;
      [right; exists (S (ticks w)); split; [lia | done]
      |right; exists (S (S (ticks w))); split; [lia | done]
      |right; exists (S (S (S (ticks w)))); split; [lia | done]].
Qed.

(** X20. An admission check leaves no trace on later answers.  If the
    clock does not exceed [t'] during a call of [is_rate_limited] and
    stands at [t'] afterwards, then the admission check and the quota
    query made after that call answer what they would have answered at
    [t'] had the call never been made: a denied attempt neither delays
    nor hastens the moment the client is admitted again. *)
Theorem earlier_attempt_is_unobservable clock clock' cfg id w t' :
  let w1 := after (is_rate_limited clock cfg id) w in
  (forall n, (ticks w <= n)%nat -> clock n <= t') ->
  (forall n, (ticks w1 <= n)%nat -> clock n = t') ->
  (forall n, (ticks w <= n)%nat -> clock' n = t') ->
  result (is_rate_limited clock cfg id) w1 = result (is_rate_limited clock' cfg id) w
  /\ result (get_remaining_requests clock cfg id) w1
     = result (get_remaining_requests clock' cfg id) w.
Proof.
  intros w1 Hbefore Hafter Hclk'.
  rewrite (is_rate_limited_at_standing_clock clock cfg id w1 t' Hafter).
  rewrite (is_rate_limited_at_standing_clock clock' cfg id w t' Hclk').
  rewrite (remaining_at_standing_clock clock cfg id w1 t' Hafter).
  rewrite (remaining_at_standing_clock clock' cfg id w t' Hclk').
  assert (pruned cfg t' t' t' (record_of w1 id)
          = pruned cfg t' t' t' (record_of w id)) as ->; [|done].
  subst w1.
  destruct (is_rate_limited_prunes_at_reads clock cfg id w) as (r' & k & -> & Hr).
  rewrite record_of_put. unfold pruned.
  pose proof (Hr minute) as Hm. pose proof (Hr hour) as Hh.
  pose proof (Hr day) as Hd. simpl in Hm, Hh, Hd.
  assert (forall W q q',
            (q' = q \/ exists i, (ticks w <= i)%nat
                          /\ q' = popleft_while_old (clock i) W q) ->
            popleft_while_old t' W q' = popleft_while_old t' W q) as Hsame.
  { intros W q q' [->|(i & Hi & ->)]; [done|].
    apply popleft_while_old_later. by apply Hbefore. }
  by rewrite (Hsame _ _ _ Hm), (Hsame _ _ _ Hh), (Hsame _ _ _ Hd).
Qed.

Lemma earlier_attempt_is_unobservable_witness :
  let clock := fun n : nat => if (n <? 2)%nat then 1000 else 1025 in
  let w := put "9.9.9.9" (mkRecord [950; 960; 970] [950; 960; 970] [950; 960; 970])
             0 fresh_world in
  result (is_rate_limited clock RATE_LIMIT_CONFIG "9.9.9.9") w = Limited minute 3 3
  /\ result (is_rate_limited clock RATE_LIMIT_CONFIG "9.9.9.9")
       (after (is_rate_limited clock RATE_LIMIT_CONFIG "9.9.9.9") w)
     = result (is_rate_limited (fun _ => 1025) RATE_LIMIT_CONFIG "9.9.9.9") w.
Proof.
  intros clock w. split; [vm_compute; reflexivity|].
  apply (proj1 (earlier_attempt_is_unobservable clock (fun _ => 1025)
                  RATE_LIMIT_CONFIG "9.9.9.9" w 1025
                  ltac:(intros n _; unfold clock; destruct (n <? 2)%nat; lia)
                  ltac:(intros n Hn; unfold clock;
                        destruct (Nat.ltb_spec n 2) as [Hlt|]; [|reflexivity];
                        exfalso; revert Hn; vm_compute; lia)
                  ltac:(reflexivity))).
Defined.
